(** * Adaptive moments (SdssShape.cc): a shallow embedding

    The functions of [src/shape/SdssShape.cc] that measure adaptive
    moments are transcribed here: [calc_fisher], [getWeights],
    [getInterp], [set_amom_bbox], [calcmom], [getAdaptiveMoments] and
    [getFixedMomentsFlux].

    The C++ code computes with [float] and [double].  The arithmetic is
    kept abstract: an [Arith] structure supplies the carrier of
    floating-point values, the IEEE operations, the libm functions and
    the conversions the code uses, and [fl] stands for the rounding that
    happens when a value is stored in a [float] variable.  Every general
    theorem below holds for any such structure; the few laws that some
    theorems need are listed in [ArithLaws] and [RegLaws] and are laws
    of IEEE arithmetic.  The ellipse and box classes of lsst::afw and
    the matrix inverse of Eigen are parameters too ([Afw]).  [Exact] is
    an executable instance (exact rationals extended with NaN) on which
    concrete inputs are evaluated; [Single] is a second one, which
    rounds to the precision of binary32 and binary64. *)

From Stdlib Require Import ZArith QArith Qabs Qround Bool List Lia Lqa.
Import ListNotations.

Set Implicit Arguments.
Local Open Scope Z_scope.

(** ** Arithmetic interface *)

Record Arith : Type := MkArith {
  F :> Type;                     (* values of the C++ floating types *)
  nan : F;                       (* std::numeric_limits<double>::quiet_NaN() *)
  lit : Q -> F;                  (* a decimal literal of the source text *)
  of_int : Z -> F;               (* conversion of an int *)
  to_int : F -> Z;               (* static_cast<int>: truncation toward zero *)
  fl : F -> F;                   (* rounding on assignment to a float *)
  add : F -> F -> F;
  sub : F -> F -> F;
  mul : F -> F -> F;
  div : F -> F -> F;
  opp : F -> F;
  fabs : F -> F;
  sqrt : F -> F;
  sqr : F -> F;                  (* ::pow(x, 2) *)
  exp : F -> F;
  ltb : F -> F -> bool;          (* a < b *)
  leb : F -> F -> bool;          (* a <= b *)
  eqb : F -> F -> bool;          (* a == b *)
  isnan : F -> bool              (* lsst::utils::isnan *)
}.

Arguments nan {a}.
Arguments lit {a} _.
Arguments of_int {a} _.
Arguments to_int {a} _.
Arguments fl {a} _.
Arguments add {a} _ _.
Arguments sub {a} _ _.
Arguments mul {a} _ _.
Arguments div {a} _ _.
Arguments opp {a} _.
Arguments fabs {a} _.
Arguments sqrt {a} _.
Arguments sqr {a} _.
Arguments exp {a} _.
Arguments ltb {a} _ _.
Arguments leb {a} _ _.
Arguments eqb {a} _ _.
Arguments isnan {a} _.

Declare Scope fp_scope.
Delimit Scope fp_scope with fp.
Infix "+" := add : fp_scope.
Infix "-" := sub : fp_scope.
Infix "*" := mul : fp_scope.
Infix "/" := div : fp_scope.
Notation "- x" := (opp x) : fp_scope.
Infix "<?" := ltb : fp_scope.
Infix "<=?" := leb : fp_scope.
Notation "a >? b" := (ltb b a) (only parsing) : fp_scope.
Notation "a >=? b" := (leb b a) (only parsing) : fp_scope.

(** A call either returns or stops at a failed [assert] or at a thrown
    exception.  The loops are given fuel: [OutOfFuel] is for the
    iteration of [getAdaptiveMoments], [SubgridOutOfFuel] for the
    sub-pixel loops of [calcmom], which run on [float] counters. *)
Inductive result (T : Type) : Type :=
| Ret (v : T)
| AssertFailed
| Thrown
| OutOfFuel
| SubgridOutOfFuel.

Arguments Ret {T} v.
Arguments AssertFailed {T}.
Arguments Thrown {T}.
Arguments OutOfFuel {T}.
Arguments SubgridOutOfFuel {T}.

Definition bind {T U : Type} (r : result T) (k : T -> result U) : result U :=
  match r with
  | Ret v => k v
  | AssertFailed => AssertFailed
  | Thrown => Thrown
  | OutOfFuel => OutOfFuel
  | SubgridOutOfFuel => SubgridOutOfFuel
  end.

Notation "x <- r ;; k" := (bind r (fun x => k))
  (at level 61, r at next level, right associativity).

Definition assert (b : bool) : result unit :=
  if b then Ret tt else AssertFailed.

(** ** The geometry library used by the code (lsst::afw::geom, Eigen)

    These types belong to another package; the code only calls them.
    [Quad] is an ellipses::Quadrupole (Ixx, Iyy, Ixy), [Axes] an
    ellipses::Axes (a, b, theta). *)

Record Quad (A : Type) : Type := MkQuad { qIxx : A; qIyy : A; qIxy : A }.
Record Axes (A : Type) : Type := MkAxes { getA : A; getB : A; getTheta : A }.

Arguments MkQuad {A} _ _ _.
Arguments MkAxes {A} _ _ _.

Definition setA {A : Type} (ax : Axes A) (a : A) : Axes A :=
  MkAxes a (getB ax) (getTheta ax).
Definition setB {A : Type} (ax : Axes A) (b : A) : Axes A :=
  MkAxes (getA ax) b (getTheta ax).

Record BoxI : Type := MkBox { getMinX : Z; getMinY : Z; getMaxX : Z; getMaxY : Z }.

Record Afw (A : Type) : Type := MkAfw {
  axes_of_quad : Quad A -> Axes A;          (* Axes axes(q) *)
  quad_of_axes : Axes A -> Quad A;          (* Quadrupole q2(axes) *)
  quad_det : Quad A -> A;                   (* q2.getDeterminant() *)
  quad_inverse : Quad A -> A * A * A;       (* q2.getMatrix().inverse(): (0,0), (1,0), (1,1) *)
  box_of_corners : Z * Z -> Z * Z -> BoxI;  (* BoxI(llc, urc) *)
  inverse4 : (nat -> nat -> A) -> nat -> nat -> A;   (* Matrix4::inverse() *)
  positionToIndex : A -> Z;
  pi : A                                    (* afwGeom::PI *)
}.

(** An image: its size and the pixel at column [j] of row [i]. *)
Record Image (A : Type) : Type := MkImage {
  getWidth : Z;
  getHeight : Z;
  pixel : Z -> Z -> A;
  variance : Z -> Z -> A   (* ImageAdaptor::getVariance: NaN for a plain Image *)
}.

Arguments MkImage {A} _ _ _ _.

(** The seven sums [calcmom] writes through its pointer arguments. *)
Record MomentSums (A : Type) : Type := MkSums {
  sum : A; sumx : A; sumy : A; sumxx : A; sumxy : A; sumyy : A; sums4 : A
}.

Arguments MkSums {A} _ _ _ _ _ _ _.

(** The status bits of a shape.  Flags::SHAPE_MAXITER and the others
    are distinct bits of an integer in the header; a record of booleans
    stands for the bit set, [|] sets a field and [& ~] clears it. *)
Record Flags : Type := MkFlags {
  SHAPE_MAXITER : bool;
  SHAPE_UNWEIGHTED : bool;
  SHAPE_UNWEIGHTED_BAD : bool;
  SHAPE_SHIFT : bool
}.

Definition no_flags : Flags := MkFlags false false false false.
Definition set_MAXITER (f : Flags) : Flags :=
  MkFlags true (SHAPE_UNWEIGHTED f) (SHAPE_UNWEIGHTED_BAD f) (SHAPE_SHIFT f).
Definition set_UNWEIGHTED (f : Flags) : Flags :=
  MkFlags (SHAPE_MAXITER f) true (SHAPE_UNWEIGHTED_BAD f) (SHAPE_SHIFT f).
Definition clear_UNWEIGHTED (f : Flags) : Flags :=
  MkFlags (SHAPE_MAXITER f) false (SHAPE_UNWEIGHTED_BAD f) (SHAPE_SHIFT f).
Definition set_UNWEIGHTED_BAD (f : Flags) : Flags :=
  MkFlags (SHAPE_MAXITER f) (SHAPE_UNWEIGHTED f) true (SHAPE_SHIFT f).
Definition set_SHIFT (f : Flags) : Flags :=
  MkFlags (SHAPE_MAXITER f) (SHAPE_UNWEIGHTED f) (SHAPE_UNWEIGHTED_BAD f) true.

(** A 4x4 matrix, indexed from 0, and the assignment [m(i, j) = v]. *)
Definition Matrix4 (A : Type) : Type := nat -> nat -> A.

Definition mset {A : Type} (m : Matrix4 A) (i j : nat) (v : A) : Matrix4 A :=
  fun i' j' => if (Nat.eqb i i' && Nat.eqb j j')%bool then v else m i' j'.

Definition mget {A : Type} (m : Matrix4 A) (i j : nat) : A := m i j.

(** The fields of detail::SdssShapeImpl that the code reads or writes. *)
Record Shape (A : Type) : Type := MkShape {
  getFlags : Flags;
  getI0 : A;
  getX : A;
  getY : A;
  getIxx : A;
  getIxy : A;
  getIyy : A;
  getIxy4 : A;
  getCovar : Matrix4 A
}.

Arguments MkShape {A} _ _ _ _ _ _ _ _ _.

Definition setFlags {A : Type} (s : Shape A) (f : Flags) : Shape A :=
  MkShape f (getI0 s) (getX s) (getY s) (getIxx s) (getIxy s) (getIyy s) (getIxy4 s) (getCovar s).
Definition setI0 {A : Type} (s : Shape A) (v : A) : Shape A :=
  MkShape (getFlags s) v (getX s) (getY s) (getIxx s) (getIxy s) (getIyy s) (getIxy4 s) (getCovar s).
Definition setX {A : Type} (s : Shape A) (v : A) : Shape A :=
  MkShape (getFlags s) (getI0 s) v (getY s) (getIxx s) (getIxy s) (getIyy s) (getIxy4 s) (getCovar s).
Definition setY {A : Type} (s : Shape A) (v : A) : Shape A :=
  MkShape (getFlags s) (getI0 s) (getX s) v (getIxx s) (getIxy s) (getIyy s) (getIxy4 s) (getCovar s).
Definition setIxx {A : Type} (s : Shape A) (v : A) : Shape A :=
  MkShape (getFlags s) (getI0 s) (getX s) (getY s) v (getIxy s) (getIyy s) (getIxy4 s) (getCovar s).
Definition setIxy {A : Type} (s : Shape A) (v : A) : Shape A :=
  MkShape (getFlags s) (getI0 s) (getX s) (getY s) (getIxx s) v (getIyy s) (getIxy4 s) (getCovar s).
Definition setIyy {A : Type} (s : Shape A) (v : A) : Shape A :=
  MkShape (getFlags s) (getI0 s) (getX s) (getY s) (getIxx s) (getIxy s) v (getIxy4 s) (getCovar s).
Definition setIxy4 {A : Type} (s : Shape A) (v : A) : Shape A :=
  MkShape (getFlags s) (getI0 s) (getX s) (getY s) (getIxx s) (getIxy s) (getIyy s) v (getCovar s).
Definition setCovar {A : Type} (s : Shape A) (m : Matrix4 A) : Shape A :=
  MkShape (getFlags s) (getI0 s) (getX s) (getY s) (getIxx s) (getIxy s) (getIyy s) (getIxy4 s) m.

(** The local variables of [getAdaptiveMoments] that live across the
    rounds of its loop, with the shape being filled in. *)
Record Locals (A : Type) : Type := MkLocals {
  l_shape : Shape A;
  l_ampW : A;
  l_sums : MomentSums A;
  l_sigma11W : A; l_sigma12W : A; l_sigma22W : A;
  l_w11 : A; l_w12 : A; l_w22 : A;
  l_e1_old : A; l_e2_old : A; l_sigma11_ow_old : A;
  l_interpflag : bool;
  l_bbox : BoxI;
  l_iter : Z
}.

Arguments MkLocals {A} _ _ _ _ _ _ _ _ _ _ _ _ _ _ _.

(** The integers [lo], [lo + 1], ..., [hi] of a [for] loop. *)
Definition zrange (lo hi : Z) : list Z :=
  map (fun k => lo + Z.of_nat k) (seq 0 (Z.to_nat (hi - lo + 1))).

Section Code.

Context {A : Arith} (G : Afw A).
Local Open Scope fp_scope.

(** Constants of the anonymous namespace. *)
Definition MAXIT : Z := 100.
Definition TOL1 : A := lit (1 # 100000).
Definition TOL2 : A := lit (1 # 10000).
(** std::numeric_limits<float>::epsilon() and <double>::epsilon(). *)
Definition float_epsilon : A := lit (1 # 8388608).
Definition double_epsilon : A := lit (1 # 4503599627370496).

(** *** getWeights *)

Definition getWeights (sigma11 sigma12 sigma22 : A) : result ((bool * A) * A * A * A) :=
  if isnan sigma11 || isnan sigma12 || isnan sigma22 then
    Ret ((false, nan), nan, nan, nan)
  else
    let det := sigma11 * sigma22 - sigma12 * sigma12 in
    if isnan det || (det <? float_epsilon) then
      let q := MkQuad sigma11 sigma22 sigma12 in
      let axes := axes_of_quad G q in
      let iMin := lit 1 / lit 12 in
      let axes := setA axes (sqrt (sqr (getA axes) + iMin)) in
      let axes := setB axes (sqrt (sqr (getB axes) + iMin)) in
      let q2 := quad_of_axes G axes in
      let '(m00, m10, m11) := quad_inverse G q2 in
      Ret ((true, quad_det G q2), m00, m10, m11)
    else
      _ <- assert (sigma11 * sigma22 >=? sigma12 * sigma12 - float_epsilon) ;;
      Ret ((true, det), sigma22 / det, - sigma12 / det, sigma11 / det).

(** *** getInterp *)

Definition getInterp (sigma11 sigma22 det : A) : bool :=
  let xinterp := fl (lit (1 # 4)) in
  (sigma11 <? xinterp) || (sigma22 <? xinterp) || (det <? fl (xinterp * xinterp)).

(** *** set_amom_bbox *)

Definition amom_rad (sigma11_w sigma22_w maxRad : A) : A :=
  let rad := fl (lit 4 * sqrt (if sigma11_w >? sigma22_w then sigma11_w else sigma22_w)) in
  if rad >? maxRad then maxRad else rad.

Definition amom_corners (width height : Z) (xcen ycen sigma11_w sigma22_w maxRad : A)
  : (Z * Z) * (Z * Z) :=
  let rad := amom_rad sigma11_w sigma22_w maxRad in
  let ix0 := to_int (fl (xcen - rad) - lit (1 # 2)) in
  let ix0 := if (ix0 <? 0)%Z then 0%Z else ix0 in
  let iy0 := to_int (fl (ycen - rad) - lit (1 # 2)) in
  let iy0 := if (iy0 <? 0)%Z then 0%Z else iy0 in
  let ix1 := to_int (fl (xcen + rad) + lit (1 # 2)) in
  let ix1 := if (ix1 >=? width)%Z then (width - 1)%Z else ix1 in
  let iy1 := to_int (fl (ycen + rad) + lit (1 # 2)) in
  let iy1 := if (iy1 >=? height)%Z then (height - 1)%Z else iy1 in
  ((ix0, iy0), (ix1, iy1)).

Definition set_amom_bbox (width height : Z) (xcen ycen sigma11_w sigma12_w sigma22_w maxRad : A)
  : BoxI :=
  let '(llc, urc) := amom_corners width height xcen ycen sigma11_w sigma22_w maxRad in
  box_of_corners G llc urc.

Definition default_maxRad : A := fl (lit 1000).

(** *** calcmom *)

(** [for (X = xl; X <= xh; X += 0.25)] on a [float] counter. *)
Fixpoint subgrid_loop (T : Type) (fuel : nat) (X xh : A) (body : A -> T -> T) (acc : T)
  : result T :=
  match fuel with
  | O => if X <=? xh then SubgridOutOfFuel else Ret acc
  | S n =>
      if X <=? xh
      then subgrid_loop n (fl (X + lit (1 # 4))) xh body (body X acc)
      else Ret acc
  end.

(** The loop above without its body: does the counter pass [xh]
    before the fuel is spent? *)
Fixpoint subgrid_halts (fuel : nat) (X xh : A) : bool :=
  match fuel with
  | O => negb (X <=? xh)
  | S n => if X <=? xh then subgrid_halts n (fl (X + lit (1 # 4))) xh else true
  end.

(** The exponent at one corner of the cell. *)
Definition corner_expon (x y w11 w12 w22 : A) : A :=
  fl (fl (x * x) * w11 + fl (y * y) * w22 + lit 2 * x * y * w12).

(** The largest corner exponent, by the three conditional assignments. *)
Definition cell_expon (xl xh yl yh w11 w12 w22 : A) : A :=
  let expon := corner_expon xl yl w11 w12 w22 in
  let tmp := corner_expon xh yh w11 w12 w22 in
  let expon := if expon >? tmp then expon else tmp in
  let tmp := corner_expon xl yh w11 w12 w22 in
  let expon := if expon >? tmp then expon else tmp in
  let tmp := corner_expon xh yl w11 w12 w22 in
  if expon >? tmp then expon else tmp.

(** One sub-sample at (X, Y) of the interpolated path. *)
Definition sample (fluxOnly : bool) (xcen ycen tmod w11 w12 w22 : A) (Y X : A)
  (s : MomentSums A) : MomentSums A :=
  let interpY2 := fl (Y * Y) in
  let interpX2 := fl (X * X) in
  let interpXy := fl (X * Y) in
  let expon := fl (interpX2 * w11 + lit 2 * interpXy * w12 + interpY2 * w22) in
  let weight := fl (exp (- lit (1 # 2) * expon)) in
  let ymod := fl (tmod * weight) in
  if fluxOnly then
    MkSums (sum s + ymod) (sumx s) (sumy s) (sumxx s) (sumxy s) (sumyy s) (sums4 s)
  else
    MkSums (sum s + ymod)
           (sumx s + fl (ymod * fl (X + xcen)))
           (sumy s + fl (ymod * fl (Y + ycen)))
           (sumxx s + interpX2 * ymod)
           (sumxy s + interpXy * ymod)
           (sumyy s + interpY2 * ymod)
           (sums4 s + fl (fl (expon * expon) * ymod)).

(** The 0.25-spaced sub-grid of one cell: the [Y] loop around the [X] loop. *)
Fixpoint subgrid_rows (fuel fuelX : nat) (Y yh xl xh : A)
  (body : A -> A -> MomentSums A -> MomentSums A) (acc : MomentSums A)
  : result (MomentSums A) :=
  match fuel with
  | O => if Y <=? yh then SubgridOutOfFuel else Ret acc
  | S n =>
      if Y <=? yh
      then acc' <- subgrid_loop fuelX xl xh (body Y) acc ;;
           subgrid_rows n fuelX (fl (Y + lit (1 # 4))) yh xl xh body acc'
      else Ret acc
  end.

(** The body of the loop over [j] when [interpflag] is set. *)
Definition interp_pixel (fuel : nat) (fluxOnly : bool) (image : Image A)
  (xcen ycen bkgd w11 w12 w22 : A) (i j : Z) (s : MomentSums A)
  : result (MomentSums A) :=
  let y := fl (of_int i - ycen) in
  let yl := fl (y - lit (3 # 8)) in
  let yh := fl (y + lit (3 # 8)) in
  let x := fl (of_int j - xcen) in
  let xl := fl (x - lit (3 # 8)) in
  let xh := fl (x + lit (3 # 8)) in
  let expon := cell_expon xl xh yl yh w11 w12 w22 in
  if expon <=? lit 9 then
    let tmod := fl (pixel image j i - bkgd) in
    subgrid_rows fuel fuel yl yh xl xh (sample fluxOnly xcen ycen tmod w11 w12 w22) s
  else Ret s.

(** The body of the loop over [j] when [interpflag] is clear. *)
Definition plain_pixel (fluxOnly : bool) (image : Image A)
  (xcen ycen bkgd w11 w12 w22 : A) (i j : Z) (s : MomentSums A) : MomentSums A :=
  let y := fl (of_int i - ycen) in
  let y2 := fl (y * y) in
  let x := fl (of_int j - xcen) in
  let x2 := fl (x * x) in
  let xy := fl (x * y) in
  let expon := fl (x2 * w11 + fl (lit 2 * xy) * w12 + y2 * w22) in
  if expon <=? lit 14 then
    let weight := fl (exp (- lit (1 # 2) * expon)) in
    let tmod := fl (pixel image j i - bkgd) in
    let ymod := fl (tmod * weight) in
    if fluxOnly then
      MkSums (sum s + ymod) (sumx s) (sumy s) (sumxx s) (sumxy s) (sumyy s) (sums4 s)
    else
      MkSums (sum s + ymod)
             (sumx s + fl (ymod * of_int j))
             (sumy s + fl (ymod * of_int i))
             (sumxx s + fl (x2 * ymod))
             (sumxy s + fl (xy * ymod))
             (sumyy s + fl (y2 * ymod))
             (sums4 s + fl (fl (expon * expon) * ymod))
  else s.

Definition pixel_step (fuel : nat) (fluxOnly interpflag : bool) (image : Image A)
  (xcen ycen bkgd w11 w12 w22 : A) (i j : Z) (s : MomentSums A)
  : result (MomentSums A) :=
  if interpflag
  then interp_pixel fuel fluxOnly image xcen ycen bkgd w11 w12 w22 i j s
  else Ret (plain_pixel fluxOnly image xcen ycen bkgd w11 w12 w22 i j s).

(** A [for] loop over integers whose body may stop the call. *)
Fixpoint for_each (T : Type) (l : list Z) (body : Z -> T -> result T) (acc : T) : result T :=
  match l with
  | [] => Ret acc
  | k :: l' => acc' <- body k acc ;; for_each l' body acc'
  end.

Definition zero_sums : MomentSums A :=
  let z := lit 0 in MkSums z z z z z z z.

(** The two nested loops over the rows and columns of the box. *)
Definition accumulate (fuel : nat) (fluxOnly interpflag : bool) (image : Image A)
  (xcen ycen : A) (bbox : BoxI) (bkgd w11 w12 w22 : A) : result (MomentSums A) :=
  for_each (zrange (getMinY bbox) (getMaxY bbox))
    (fun i s =>
       for_each (zrange (getMinX bbox) (getMaxX bbox))
         (pixel_step fuel fluxOnly interpflag image xcen ycen bkgd w11 w12 w22 i) s)
    zero_sums.

(** What the call leaves in the caller's variables: [*psum] always,
    the others unless [fluxOnly], [*psums4] unless [psums4] is NULL. *)
Definition write_sums (fluxOnly want_s4 : bool) (s outs : MomentSums A) : MomentSums A :=
  if fluxOnly then
    MkSums (sum s) (sumx outs) (sumy outs) (sumxx outs) (sumxy outs) (sumyy outs) (sums4 outs)
  else
    MkSums (sum s) (sumx s) (sumy s) (sumxx s) (sumxy s) (sumyy s)
           (if want_s4 then sums4 s else sums4 outs).

Definition box_outside (image : Image A) (bbox : BoxI) : bool :=
  (getMinX bbox <? 0)%Z || (getMaxX bbox >=? getWidth image)%Z
  || (getMinY bbox <? 0)%Z || (getMaxY bbox >=? getHeight image)%Z.

Definition weights_too_large (w11 w12 w22 : A) : bool :=
  (fabs w11 >? lit 1000000) || (fabs w12 >? lit 1000000) || (fabs w22 >? lit 1000000).

(** [calcmom<fluxOnly>]: the status returned (0 or -1) and the caller's
    sums after the call; [outs] are the caller's sums before it and
    [want_s4] says that [psums4] is not NULL. *)
Definition calcmom (fuel : nat) (fluxOnly : bool) (image : Image A) (xcen ycen : A)
  (bbox : BoxI) (bkgd : A) (interpflag : bool) (w11 w12 w22 : A)
  (outs : MomentSums A) (want_s4 : bool) : result (Z * MomentSums A) :=
  _ <- assert (w11 >=? lit 0) ;;
  if weights_too_large w11 w12 w22 then Ret (-1, outs)%Z
  else if box_outside image bbox then Ret (-1, outs)%Z
  else
    s <- accumulate fuel fluxOnly interpflag image xcen ycen bbox bkgd w11 w12 w22 ;;
    Ret (if fluxOnly || ((sum s >? lit 0) && (sumxx s >? lit 0) && (sumyy s >? lit 0))
         then 0%Z else (-1)%Z,
         write_sums fluxOnly want_s4 s outs).

(** *** calc_fisher *)

(** [uninit] is the content of the local matrix before the assignments. *)
Definition calc_fisher (uninit : Matrix4 A) (shape : Shape A) (bkgd_var : A)
  : result (Matrix4 A) :=
  let Amp := fl (getI0 shape) in
  let sigma11W := fl (getIxx shape) in
  let sigma12W := fl (getIxy shape) in
  let sigma22W := fl (getIyy shape) in
  let D := fl (fl (sigma11W * sigma22W) - fl (sigma12W * sigma12W)) in
  if D <=? double_epsilon then Thrown
  else if bkgd_var <=? lit 0 then Thrown
  else
    let Fn := pi G * sqrt D / bkgd_var in
    let fisher := uninit in
    let fac := Fn * Amp / (lit 4 * D) in
    let fisher := mset fisher 0 0 Fn in
    let fisher := mset fisher 0 1 (fac * sigma22W) in
    let fisher := mset fisher 1 0 (mget fisher 0 1) in
    let fisher := mset fisher 0 2 (fac * sigma11W) in
    let fisher := mset fisher 2 0 (mget fisher 0 2) in
    let fisher := mset fisher 0 3 (- fac * lit 2 * sigma12W) in
    let fisher := mset fisher 3 0 (mget fisher 0 3) in
    let fac := lit 3 * Fn * Amp * Amp / (lit 16 * D * D) in
    let fisher := mset fisher 1 1 (fac * sigma22W * sigma22W) in
    let fisher := mset fisher 2 2 (fac * sigma11W * sigma11W) in
    let fisher := mset fisher 3 3 (fac * lit 4 * (fl (sigma12W * sigma12W) + D / lit 3)) in
    let fisher := mset fisher 1 2 (mget fisher 3 3 / lit 4) in
    let fisher := mset fisher 2 1 (mget fisher 1 2) in
    let fisher := mset fisher 1 3 (fac * fl (fl (lit (-2) * sigma22W) * sigma12W)) in
    let fisher := mset fisher 3 1 (mget fisher 1 3) in
    let fisher := mset fisher 2 3 (fac * fl (fl (lit (-2) * sigma11W) * sigma12W)) in
    let fisher := mset fisher 3 2 (mget fisher 2 3) in
    Ret fisher.

(** *** getAdaptiveMoments *)

Definition flag_unweighted (shape : Shape A) : Shape A :=
  setFlags shape (set_UNWEIGHTED (getFlags shape)).

(** One execution of the body of [for (; iter < MAXIT; iter++)].  The
    boolean is [false] when the body leaves the loop by [break]; the
    [iter++] of the loop header is not part of the body. *)
Definition loop_body (fuel : nat) (image : Image A) (bkgd xcen ycen shiftmax : A)
  (l : Locals A) : result (bool * Locals A) :=
  let xcen0 := fl xcen in
  let ycen0 := fl ycen in
  let shape := l_shape l in
  let sigma11W := l_sigma11W l in
  let sigma12W := l_sigma12W l in
  let sigma22W := l_sigma22W l in
  let bbox := set_amom_bbox (getWidth image) (getHeight image) (fl xcen) (fl ycen)
                sigma11W sigma12W sigma22W default_maxRad in
  let out shape' := MkLocals shape' (l_ampW l) (l_sums l) sigma11W sigma12W sigma22W
                      (l_w11 l) (l_w12 l) (l_w22 l)
                      (l_e1_old l) (l_e2_old l) (l_sigma11_ow_old l)
                      (l_interpflag l) bbox (l_iter l) in
  weights <- getWeights sigma11W sigma12W sigma22W ;;
  let '(ok_detW, g11, g12, g22) := weights in
  if negb (fst ok_detW) then Ret (false, out (flag_unweighted shape))
  else
    _ <- assert (sigma11W * sigma22W >=? sigma12W * sigma12W - float_epsilon) ;;
    let detW := snd ok_detW in
    let latch := getInterp sigma11W sigma22W detW && negb (l_interpflag l) in
    let redo := latch && (l_iter l >? 0)%Z in
    let interpflag := l_interpflag l || latch in
    let sigma11_ow_old := if redo then fl (lit 1000000) else l_sigma11_ow_old l in
    let w11 := if redo then l_w11 l else g11 in
    let w12 := if redo then l_w12 l else g12 in
    let w22 := if redo then l_w22 l else g22 in
    let iter := if redo then (l_iter l - 1)%Z else l_iter l in
    r <- calcmom fuel false image (fl xcen) (fl ycen) bbox (fl bkgd) interpflag
           w11 w12 w22 (l_sums l) true ;;
    let '(status, sums) := r in
    let out shape' ampW := MkLocals shape' ampW sums sigma11W sigma12W sigma22W
                             w11 w12 w22 (l_e1_old l) (l_e2_old l) sigma11_ow_old
                             interpflag bbox iter in
    if (status <? 0)%Z then Ret (false, out (flag_unweighted shape) (l_ampW l))
    else
      let ampW := fl (sum sums / (pi G * sqrt detW)) in
      let shape := setX shape (sumx sums / sum sums) in
      let shape := setY shape (sumy sums / sum sums) in
      let shape :=
        if (fabs (getX shape - xcen0) >? shiftmax) || (fabs (getY shape - ycen0) >? shiftmax)
        then setFlags shape (set_SHIFT (getFlags shape)) else shape in
      let sigma11_ow := fl (sumxx sums / sum sums) in
      let sigma22_ow := fl (sumyy sums / sum sums) in
      let sigma12_ow := fl (sumxy sums / sum sums) in
      if (sigma11_ow <=? lit 0) || (sigma22_ow <=? lit 0)
      then Ret (false, out (flag_unweighted shape) ampW)
      else
        let d := fl (sigma11_ow + sigma22_ow) in
        let e1 := fl (fl (sigma11_ow - sigma22_ow) / d) in
        let e2 := fl (lit 2 * sigma12_ow / d) in
        if (iter >? 0)%Z
           && (fabs (fl (e1 - l_e1_old l)) <? TOL1)
           && (fabs (fl (e2 - l_e2_old l)) <? TOL1)
           && (fabs (fl (sigma11_ow / sigma11_ow_old) - lit 1) <? TOL2)
        then Ret (false, out shape ampW)
        else
          let out shape' s11 s12 s22 :=
            MkLocals shape' ampW sums s11 s12 s22 w11 w12 w22 e1 e2 sigma11_ow
              interpflag bbox iter in
          weights <- getWeights sigma11_ow sigma12_ow sigma22_ow ;;
          let '(ok, o11, o12, o22) := weights in
          if negb (fst ok)
          then Ret (false, out (flag_unweighted shape) sigma11W sigma12W sigma22W)
          else
            let ow11 := fl o11 in
            let ow12 := fl o12 in
            let ow22 := fl o22 in
            let n11 := fl (ow11 - w11) in
            let n12 := fl (ow12 - w12) in
            let n22 := fl (ow22 - w22) in
            weights <- getWeights n11 n12 n22 ;;
            let '(ok, s11, s12, s22) := weights in
            if negb (fst ok)
            then Ret (false, out (flag_unweighted shape) sigma11W sigma12W sigma22W)
            else if (s11 <=? lit 0) || (s22 <=? lit 0)
            then Ret (false, out (flag_unweighted shape) s11 s12 s22)
            else Ret (true, out shape s11 s12 s22).

(** The [for] loop.  The result carries two counts of executions of the
    body: the rounds, and the redone rounds (those that decrement
    [iter], which the [iter++] of the header then restores). *)
Fixpoint adaptive_loop (outer : nat) (fuel : nat) (image : Image A)
  (bkgd xcen ycen shiftmax : A) (rounds redos : nat) (l : Locals A)
  : result (nat * nat * Locals A) :=
  if (l_iter l <? MAXIT)%Z then
    match outer with
    | O => OutOfFuel
    | S n =>
        r <- loop_body fuel image bkgd xcen ycen shiftmax l ;;
        let '(continue, l') := r in
        let redone := (l_iter l' <? l_iter l)%Z in
        let rounds' := if redone then rounds else S rounds in
        let redos' := if redone then S redos else redos in
        if continue then
          let l'' := MkLocals (l_shape l') (l_ampW l') (l_sums l')
                       (l_sigma11W l') (l_sigma12W l') (l_sigma22W l')
                       (l_w11 l') (l_w12 l') (l_w22 l')
                       (l_e1_old l') (l_e2_old l') (l_sigma11_ow_old l')
                       (l_interpflag l') (l_bbox l') (l_iter l' + 1)%Z in
          adaptive_loop n fuel image bkgd xcen ycen shiftmax rounds' redos' l''
        else Ret (rounds', redos', l')
    end
  else Ret (rounds, redos, l).

(** The locals at the entry of the loop.  [sums0] is the content of the
    uninitialised variables [sum], [sumx], ...; [BoxI()] is the empty box. *)
Definition initial_locals (shape : Shape A) (sums0 : MomentSums A) : Locals A :=
  MkLocals shape (fl (lit 0)) sums0
    (lit (3 # 2)) (lit 0) (lit (3 # 2))
    (lit (-1)) (lit (-1)) (lit (-1))
    (fl (lit 1000000)) (fl (lit 1000000)) (fl (lit 1000000))
    false (MkBox 0 0 (-1) (-1)) 0%Z.

(** What follows the loop: first the two tests that set flags. *)
Definition after_loop_shape (l : Locals A) : Shape A :=
  let shape := l_shape l in
  let shape :=
    if (l_iter l =? MAXIT)%Z
    then setFlags shape (set_UNWEIGHTED (set_MAXITER (getFlags shape))) else shape in
  if eqb (sumxx (l_sums l) + sumyy (l_sums l)) (lit 0)
  then flag_unweighted shape else shape.

(** The rerun of calcmom with weights (0, 0, 0) over the last box. *)
Definition unweighted_rerun (fuel : nat) (image : Image A) (bkgd xcen ycen : A)
  (l : Locals A) : result (Z * MomentSums A) :=
  calcmom fuel false image (fl xcen) (fl ycen) (l_bbox l) (fl bkgd)
    (l_interpflag l) (lit 0) (lit 0) (lit 0) (l_sums l) false.

(** The shape after the failed rerun: the flags, and the moments of a
    single pixel if [sum > 0]. *)
Definition unweighted_bad (shape : Shape A) (sums : MomentSums A) : Shape A :=
  let shape := setFlags shape (set_UNWEIGHTED_BAD (clear_UNWEIGHTED (getFlags shape))) in
  if sum sums >? lit 0
  then setIyy (setIxy (setIxx shape (lit 1 / lit 12)) (lit 0)) (lit 1 / lit 12)
  else shape.

(** The end of the function: the moments are stored and, for a
    weighted measurement on an image with a variance plane, the
    covariance is derived from the Fisher matrix. *)
Definition report (uninit : Matrix4 A) (image : Image A) (xcen ycen : A) (ampW : A)
  (shape : Shape A) (sums : MomentSums A) (sigma11W sigma12W sigma22W : A)
  : result (bool * Shape A) :=
  let shape := setI0 shape ampW in
  let shape := setIxx shape sigma11W in
  let shape := setIxy shape sigma12W in
  let shape := setIyy shape sigma22W in
  let shape := setIxy4 shape (sums4 sums / sum sums) in
  if negb (eqb (getIxx shape + getIyy shape) (lit 0)) then
    let ix := positionToIndex G xcen in
    let iy := positionToIndex G ycen in
    if (ix >=? 0)%Z && (ix <? getWidth image)%Z && (iy >=? 0)%Z && (iy <? getHeight image)%Z
    then
      let bkgd_var := fl (variance image ix iy) in
      if (bkgd_var >? lit 0) && negb (SHAPE_UNWEIGHTED (getFlags shape)) then
        fisher <- calc_fisher uninit shape bkgd_var ;;
        Ret (true, setCovar shape (inverse4 G fisher))
      else Ret (true, shape)
    else Ret (true, shape)
  else Ret (true, shape).

Definition finish (fuel : nat) (uninit : Matrix4 A) (image : Image A)
  (bkgd xcen ycen : A) (l : Locals A) : result (bool * Shape A) :=
  let shape := after_loop_shape l in
  if SHAPE_UNWEIGHTED (getFlags shape) then
    r <- unweighted_rerun fuel image bkgd xcen ycen l ;;
    let '(status, sums) := r in
    if (status <? 0)%Z || (sum sums <=? lit 0) then
      Ret (false, unweighted_bad shape sums)
    else
      report uninit image xcen ycen (l_ampW l) shape sums
        (sumxx sums / sum sums) (sumxy sums / sum sums) (sumyy sums / sum sums)
  else
    report uninit image xcen ycen (l_ampW l) shape (l_sums l)
      (l_sigma11W l) (l_sigma12W l) (l_sigma22W l).

(** [outer] bounds the executions of the loop body, [fuel] the sub-pixel
    loops; [shape] is the caller's record, [sums0] and [uninit] are the
    contents of uninitialised locals. *)
Definition getAdaptiveMoments (outer fuel : nat) (sums0 : MomentSums A) (uninit : Matrix4 A)
  (image : Image A) (bkgd xcen ycen shiftmax : A) (shape : Shape A)
  : result (bool * Shape A) :=
  if isnan xcen || isnan ycen then
    Ret (false, setFlags shape (set_UNWEIGHTED_BAD (getFlags shape)))
  else
    r <- adaptive_loop outer fuel image bkgd xcen ycen shiftmax 0 0
           (initial_locals shape sums0) ;;
    finish fuel uninit image bkgd xcen ycen (snd r).

(** *** getFixedMomentsFlux *)

Definition getFixedMomentsFlux (fuel : nat) (image : Image A) (bkgd xcen ycen : A)
  (shape : Shape A) : result (A * A) :=
  let bbox := set_amom_bbox (getWidth image) (getHeight image) (fl xcen) (fl ycen)
                (getIxx shape) (getIxy shape) (getIyy shape) default_maxRad in
  weights <- getWeights (getIxx shape) (getIxy shape) (getIyy shape) ;;
  let '(ok_det, w11, w12, w22) := weights in
  if negb (fst ok_det) then Ret (nan, nan)
  else
    let interp := getInterp (getIxx shape) (getIyy shape) (snd ok_det) in
    let sum0 := lit 0 in
    let sumErr := nan in
    let outs := MkSums sum0 sum0 sum0 sum0 sum0 sum0 sum0 in
    r <- calcmom fuel true image (fl xcen) (fl ycen) bbox (fl bkgd) interp w11 w12 w22
           outs false ;;
    Ret (sum (snd r), sumErr).

End Code.

(** ** The second copies of set_amom_bbox and calcmom

    The file holds, in its second anonymous namespace, an overload of
    set_amom_bbox without the [maxRad] parameter and a calcmom without
    the [fluxOnly] template parameter.  They are transcribed here from
    their own text. *)
Module Overload.
Section Code.

Context {A : Arith} (G : Afw A).
Local Open Scope fp_scope.

Definition set_amom_bbox (width height : Z) (xcen ycen sigma11_w sigma12_w sigma22_w : A)
  : BoxI :=
  let maxRad := fl (lit 1000) in
  let rad := fl (lit 4 * sqrt (if sigma11_w >? sigma22_w then sigma11_w else sigma22_w)) in
  let rad := if rad >? maxRad then maxRad else rad in
  let ix0 := to_int (fl (xcen - rad) - lit (1 # 2)) in
  let ix0 := if (ix0 <? 0)%Z then 0%Z else ix0 in
  let iy0 := to_int (fl (ycen - rad) - lit (1 # 2)) in
  let iy0 := if (iy0 <? 0)%Z then 0%Z else iy0 in
  let llc := (ix0, iy0) in
  let ix1 := to_int (fl (xcen + rad) + lit (1 # 2)) in
  let ix1 := if (ix1 >=? width)%Z then (width - 1)%Z else ix1 in
  let iy1 := to_int (fl (ycen + rad) + lit (1 # 2)) in
  let iy1 := if (iy1 >=? height)%Z then (height - 1)%Z else iy1 in
  let urc := (ix1, iy1) in
  box_of_corners G llc urc.

(** The innermost loop body of the interpolated path. *)
Definition sample (xcen ycen tmod w11 w12 w22 : A) (Y X : A) (s : MomentSums A)
  : MomentSums A :=
  let interpY2 := fl (Y * Y) in
  let interpX2 := fl (X * X) in
  let interpXy := fl (X * Y) in
  let expon := fl (interpX2 * w11 + lit 2 * interpXy * w12 + interpY2 * w22) in
  let weight := fl (exp (- lit (1 # 2) * expon)) in
  let ymod := fl (tmod * weight) in
  MkSums (sum s + ymod)
         (sumx s + fl (ymod * fl (X + xcen)))
         (sumy s + fl (ymod * fl (Y + ycen)))
         (sumxx s + interpX2 * ymod)
         (sumxy s + interpXy * ymod)
         (sumyy s + interpY2 * ymod)
         (sums4 s + fl (fl (expon * expon) * ymod)).

(** The body of the loop over [j]. *)
Definition pixel_step (fuel : nat) (interpflag : bool) (image : Image A)
  (xcen ycen bkgd w11 w12 w22 : A) (i j : Z) (s : MomentSums A)
  : result (MomentSums A) :=
  let y := fl (of_int i - ycen) in
  let y2 := fl (y * y) in
  let yl := fl (y - lit (3 # 8)) in
  let yh := fl (y + lit (3 # 8)) in
  let x := fl (of_int j - xcen) in
  if interpflag then
    let xl := fl (x - lit (3 # 8)) in
    let xh := fl (x + lit (3 # 8)) in
    let expon := fl (fl (xl * xl) * w11 + fl (yl * yl) * w22 + lit 2 * xl * yl * w12) in
    let tmp := fl (fl (xh * xh) * w11 + fl (yh * yh) * w22 + lit 2 * xh * yh * w12) in
    let expon := if expon >? tmp then expon else tmp in
    let tmp := fl (fl (xl * xl) * w11 + fl (yh * yh) * w22 + lit 2 * xl * yh * w12) in
    let expon := if expon >? tmp then expon else tmp in
    let tmp := fl (fl (xh * xh) * w11 + fl (yl * yl) * w22 + lit 2 * xh * yl * w12) in
    let expon := if expon >? tmp then expon else tmp in
    if expon <=? lit 9 then
      let tmod := fl (pixel image j i - bkgd) in
      subgrid_rows fuel fuel yl yh xl xh (sample xcen ycen tmod w11 w12 w22) s
    else Ret s
  else
    let x2 := fl (x * x) in
    let xy := fl (x * y) in
    let expon := fl (x2 * w11 + fl (lit 2 * xy) * w12 + y2 * w22) in
    if expon <=? lit 14 then
      let weight := fl (exp (- lit (1 # 2) * expon)) in
      let tmod := fl (pixel image j i - bkgd) in
      let ymod := fl (tmod * weight) in
      Ret (MkSums (sum s + ymod)
                  (sumx s + fl (ymod * of_int j))
                  (sumy s + fl (ymod * of_int i))
                  (sumxx s + fl (x2 * ymod))
                  (sumxy s + fl (xy * ymod))
                  (sumyy s + fl (y2 * ymod))
                  (sums4 s + fl (fl (expon * expon) * ymod)))
    else Ret s.

(** calcmom without [fluxOnly]: all the sums are written, [*psums4]
    unless [psums4] is NULL. *)
Definition calcmom (fuel : nat) (image : Image A) (xcen ycen : A)
  (bbox : BoxI) (bkgd : A) (interpflag : bool) (w11 w12 w22 : A)
  (outs : MomentSums A) (want_s4 : bool) : result (Z * MomentSums A) :=
  _ <- assert (w11 >=? lit 0) ;;
  if (fabs w11 >? lit 1000000) || (fabs w12 >? lit 1000000) || (fabs w22 >? lit 1000000)
  then Ret (-1, outs)%Z
  else
    let ix0 := getMinX bbox in
    let ix1 := getMaxX bbox in
    let iy0 := getMinY bbox in
    let iy1 := getMaxY bbox in
    if (ix0 <? 0)%Z || (ix1 >=? getWidth image)%Z
       || (iy0 <? 0)%Z || (iy1 >=? getHeight image)%Z
    then Ret (-1, outs)%Z
    else
      s <- for_each (zrange iy0 iy1)
             (fun i s =>
                for_each (zrange ix0 ix1)
                  (pixel_step fuel interpflag image xcen ycen bkgd w11 w12 w22 i) s)
             zero_sums ;;
      Ret (if (sum s >? lit 0) && (sumxx s >? lit 0) && (sumyy s >? lit 0)
           then 0%Z else (-1)%Z,
           MkSums (sum s) (sumx s) (sumy s) (sumxx s) (sumxy s) (sumyy s)
                  (if want_s4 then sums4 s else sums4 outs)).

End Code.
End Overload.

(** ** An executable arithmetic: exact rationals with NaN

    [None] is NaN.  No rounding takes place ([fl] is the identity), so a
    computation whose intermediate results are all representable gives
    here the value it has in IEEE arithmetic, and only such a
    computation; in particular the float counters of the sub-pixel
    loops are not rounded here (see [Single] for those).  A division by
    zero and a square root of a negative number give NaN; [sqrt] and
    [exp] are rational approximations ([sqrt] is monotone and both are
    exact on the inputs of the examples below).  [to_int] truncates
    without a bound, and gives 0 for NaN, where the C++ conversion is
    undefined. *)
Module Exact.

Definition num : Type := option Q.

Definition lift1 (f : Q -> Q) (a : num) : num :=
  match a with Some x => Some (Qred (f x)) | None => None end.

Definition lift2 (f : Q -> Q -> Q) (a b : num) : num :=
  match a, b with Some x, Some y => Some (Qred (f x y)) | _, _ => None end.

Definition cmp2 (f : Q -> Q -> bool) (a b : num) : bool :=
  match a, b with Some x, Some y => f x y | _, _ => false end.

Definition Qltb (x y : Q) : bool := negb (Qle_bool y x).

Definition xdiv (a b : num) : num :=
  match a, b with
  | Some x, Some y => if Qeq_bool y 0 then None else Some (Qred (x / y))
  | _, _ => None
  end.

Definition xtrunc (a : num) : Z :=
  match a with Some x => Z.quot (Qnum x) (Zpos (Qden x)) | None => 0 end.

(** The square root rounded down to six decimals: the integer square
    root of floor (x * 10^12), over 10^6. *)
Definition xsqrt (a : num) : num :=
  match a with
  | Some x =>
      if Qltb x 0 then None
      else Some (Qred (Z.sqrt (Qfloor (x * 1000000000000)) # 1000000))
  | None => None
  end.

Fixpoint exp_series (n : nat) (x term acc : Q) (k : Z) : Q :=
  match n with
  | O => acc
  | S n' =>
      let term' := Qred (term * x / (k # 1)) in
      exp_series n' x term' (Qred (acc + term')) (k + 1)
  end.

(** exp x by eight terms of its series; 1 / exp (-x) when x < 0. *)
Definition xexp (a : num) : num :=
  match a with
  | Some x =>
      if Qltb x 0 then Some (Qred (/ exp_series 8 (- x) 1 1 1))
      else Some (exp_series 8 x 1 1 1)
  | None => None
  end.

Definition arith : Arith :=
  {| F := num;
     nan := None;
     lit := fun q => Some (Qred q);
     of_int := fun z => Some (z # 1);
     to_int := xtrunc;
     fl := fun x => x;
     add := lift2 Qplus;
     sub := lift2 Qminus;
     mul := lift2 Qmult;
     div := xdiv;
     opp := lift1 Qopp;
     fabs := lift1 Qabs;
     sqrt := xsqrt;
     sqr := lift1 (fun x => x * x)%Q;
     exp := xexp;
     ltb := cmp2 Qltb;
     leb := cmp2 Qle_bool;
     eqb := cmp2 Qeq_bool;
     isnan := fun a => match a with None => true | Some _ => false end |}.

(** *** The geometry library on this arithmetic

    The conversions follow the formulas of afw's ellipse cores:
    for a quadrupole, a and b are the square roots of
    (Ixx + Iyy +/- t) / 2 with t = sqrt ((Ixx - Iyy)^2 + 4 Ixy^2), and
    theta is atan2 (2 Ixy, Ixx - Iyy) / 2; for axes,
    Ixx = a^2 c^2 + b^2 s^2, Iyy = a^2 s^2 + b^2 c^2 and
    Ixy = (a^2 - b^2) c s with c = cos theta, s = sin theta.  The angle
    functions are rational approximations, exact at 0: cosine and sine
    come from the half-angle parametrisation of the circle with
    tan (theta / 2) taken as theta / 2.  A NaN among the operands gives
    NaN, and so does the inverse of a singular matrix. *)

Local Open Scope fp_scope.

Definition half : arith := lit (1 # 2).

Definition xpi : arith := lit (314159265358979323846 # 100000000000000000000).

(** atan z as z / (1 + 0.28 z^2) for |z| <= 1. *)
Definition atan_small (z : arith) : arith :=
  z / (lit 1 + lit (28 # 100) * (z * z)).

Definition xatan2 (y x : arith) : arith :=
  if eqb y (lit 0) then (if lit 0 <=? x then lit 0 else if x <? lit 0 then xpi else nan)
  else if fabs y <=? fabs x then
    (if lit 0 <? x then atan_small (y / x)
     else if lit 0 <? y then atan_small (y / x) + xpi
     else atan_small (y / x) - xpi)
  else if lit 0 <? y then half * xpi - atan_small (x / y)
  else if y <? lit 0 then - (half * xpi) - atan_small (x / y)
  else nan.

(** cos and sin of 2 atan u. *)
Definition qcos (u : Q) : Q := ((1 - u * u) / (1 + u * u))%Q.
Definition qsin (u : Q) : Q := ((2 * u) / (1 + u * u))%Q.

Definition x_axes_of_quad (q : Quad arith) : Axes arith :=
  let xx_p_yy := qIxx q + qIyy q in
  let xx_m_yy := qIxx q - qIyy q in
  let t := sqrt (xx_m_yy * xx_m_yy + lit 4 * qIxy q * qIxy q) in
  MkAxes (sqrt (half * (xx_p_yy + t)))
         (sqrt (half * (xx_p_yy - t)))
         (half * xatan2 (lit 2 * qIxy q) xx_m_yy).

Definition x_quad_of_axes (ax : Axes arith) : Quad arith :=
  match getA ax, getB ax, getTheta ax with
  | Some a, Some b, Some t =>
      let a2 := (a * a)%Q in
      let b2 := (b * b)%Q in
      let c := qcos (t / 2) in
      let s := qsin (t / 2) in
      MkQuad (Some (Qred (a2 * (c * c) + b2 * (s * s))))
             (Some (Qred (a2 * (s * s) + b2 * (c * c))))
             (Some (Qred ((a2 - b2) * (c * s))))
  | _, _, _ => MkQuad nan nan nan
  end.

Definition x_quad_det (q : Quad arith) : arith :=
  qIxx q * qIyy q - qIxy q * qIxy q.

Definition x_quad_inverse (q : Quad arith) : arith * arith * arith :=
  match qIxx q, qIyy q, qIxy q with
  | Some ixx, Some iyy, Some ixy =>
      let d := (ixx * iyy - ixy * ixy)%Q in
      if Qeq_bool d 0 then (nan, nan, nan)
      else (Some (Qred (iyy / d)), Some (Qred (- ixy / d)), Some (Qred (ixx / d)))
  | _, _, _ => (nan, nan, nan)
  end.

(** Box2I (min, max): a reversed pair of corners is swapped. *)
Definition x_box_of_corners (llc urc : Z * Z) : BoxI :=
  MkBox (Z.min (fst llc) (fst urc)) (Z.min (snd llc) (snd urc))
        (Z.max (fst llc) (fst urc)) (Z.max (snd llc) (snd urc)).

Definition skip (k idx : nat) : nat := if Nat.ltb idx k then idx else S idx.

Definition det3 (m : Matrix4 arith) : arith :=
  mget m 0 0 * (mget m 1 1 * mget m 2 2 - mget m 1 2 * mget m 2 1)
  - mget m 0 1 * (mget m 1 0 * mget m 2 2 - mget m 1 2 * mget m 2 0)
  + mget m 0 2 * (mget m 1 0 * mget m 2 1 - mget m 1 1 * mget m 2 0).

Definition cofactor (m : Matrix4 arith) (i j : nat) : arith :=
  let d := det3 (fun r c => m (skip i r) (skip j c)) in
  if Nat.even (i + j) then d else - d.

Definition det4 (m : Matrix4 arith) : arith :=
  mget m 0 0 * cofactor m 0 0 + mget m 0 1 * cofactor m 0 1
  + mget m 0 2 * cofactor m 0 2 + mget m 0 3 * cofactor m 0 3.

Definition x_inverse4 (m : Matrix4 arith) : Matrix4 arith :=
  fun i j => cofactor m j i / det4 m.

(** floor (x + 0.5) *)
Definition x_positionToIndex (x : arith) : Z :=
  match (x + half)%fp with Some r => Qfloor r | None => 0%Z end.

Definition afw : Afw arith :=
  {| axes_of_quad := x_axes_of_quad;
     quad_of_axes := x_quad_of_axes;
     quad_det := x_quad_det;
     quad_inverse := x_quad_inverse;
     box_of_corners := x_box_of_corners;
     inverse4 := x_inverse4;
     positionToIndex := x_positionToIndex;
     pi := xpi |}.

(** Shorthand for a rational of this arithmetic. *)
Definition q (x : Q) : arith := Some (Qred x).

(** The offsets of the sub-samples of a cell from the pixel centre. *)
Definition offsets : list Q := [(-3 # 8); (-1 # 8); (1 # 8); (3 # 8)]%Q.

End Exact.

(** ** A second executable arithmetic: binary32 and binary64 precision

    As [Exact], with rounding.  Every arithmetic operation rounds its
    exact result to 53 significant bits and [fl] rounds to 24, to
    nearest with ties to even.  The exponent range is not bounded:
    there is no overflow, no subnormal number and no signed zero, so
    additions, subtractions, multiplications and divisions whose
    operands and results lie in the normal range of binary32 and
    binary64 give here the values they have in IEEE arithmetic.
    [sqrt] and [exp] are those of [Exact], rounded. *)
Module Single.
Import Exact.

(** 2^e *)
Definition pow2 (e : Z) : Q :=
  if (0 <=? e)%Z then inject_Z (2 ^ e) else (1 # Z.to_pos (2 ^ (- e))).

(** The binade of x <> 0: the e with 2^e <= |x| < 2^(e+1). *)
Definition binade (x : Q) : Z :=
  let k := (Z.log2 (Z.abs (Qnum x)) - Z.log2 (Zpos (Qden x)))%Z in
  if Qle_bool (pow2 k) (Qabs x) then k else (k - 1)%Z.

(** The nearest integer, ties to even. *)
Definition nearest_even (x : Q) : Z :=
  let f := Qfloor x in
  match Qcompare (x - inject_Z f) (1 # 2) with
  | Lt => f
  | Gt => (f + 1)%Z
  | Eq => if Z.even f then f else (f + 1)%Z
  end.

(** x rounded to [p] significant bits. *)
Definition round_to (p : Z) (x : Q) : Q :=
  if Qeq_bool x 0 then 0%Q
  else
    let ulp := pow2 (binade x - p + 1) in
    Qred (inject_Z (nearest_even (x / ulp)) * ulp).

Definition to_double (a : num) : num :=
  match a with Some x => Some (round_to 53 x) | None => None end.

Definition to_float (a : num) : num :=
  match a with Some x => Some (round_to 24 x) | None => None end.

Definition arith : Arith :=
  {| F := num;
     nan := None;
     lit := fun q => to_double (Some q);
     of_int := fun z => Some (z # 1);
     to_int := xtrunc;
     fl := to_float;
     add := fun a b => to_double (lift2 Qplus a b);
     sub := fun a b => to_double (lift2 Qminus a b);
     mul := fun a b => to_double (lift2 Qmult a b);
     div := fun a b => to_double (xdiv a b);
     opp := lift1 Qopp;
     fabs := lift1 Qabs;
     sqrt := fun a => to_double (xsqrt a);
     sqr := fun a => to_double (lift1 (fun x => x * x)%Q a);
     exp := fun a => to_double (xexp a);
     ltb := cmp2 Qltb;
     leb := cmp2 Qle_bool;
     eqb := cmp2 Qeq_bool;
     isnan := fun a => match a with None => true | Some _ => false end |}.

Definition q (x : Q) : arith := Some (Qred x).

End Single.

(** ** Vocabulary of the statements *)

(** Test data: one-pixel images and shapes on the exact arithmetic. *)
Module Data.
Import Exact.

Definition one_pixel (v : arith) : Image arith :=
  MkImage 1 1 (fun _ _ => v) (fun _ _ => nan).

Definition shape_of (ixx ixy iyy : arith) : Shape arith :=
  MkShape no_flags nan nan nan ixx ixy iyy nan (fun _ _ => nan).

Definition pixel_box : BoxI := MkBox 0 0 0 0.

Definition no_sums : MomentSums arith := MkSums nan nan nan nan nan nan nan.

End Data.

(** A corner, or a box, inside an image of the given size. *)
Definition corner_inside (width height : Z) (c : Z * Z) : Prop :=
  (0 <= fst c <= width - 1)%Z /\ (0 <= snd c <= height - 1)%Z.

Definition box_inside (width height : Z) (b : BoxI) : Prop :=
  (0 <= getMinX b)%Z /\ (getMaxX b <= width - 1)%Z /\
  (0 <= getMinY b)%Z /\ (getMaxY b <= height - 1)%Z.

Section Vocabulary.

Context {A : Arith}.
Local Open Scope fp_scope.

(** The determinant [D] that calc_fisher computes from the shape. *)
Definition fisher_det (shape : Shape A) : A :=
  fl (fl (fl (getIxx shape) * fl (getIyy shape))
      - fl (fl (getIxy shape) * fl (getIxy shape))).

(** The counters of the sub-pixel loops of the cell (j, i) pass their
    bounds within [fuel] steps. *)
Definition cell_halts (fuel : nat) (xcen ycen : A) (i j : Z) : bool :=
  let y := fl (of_int i - ycen) in
  let x := fl (of_int j - xcen) in
  subgrid_halts fuel (fl (y - lit (3 # 8))) (fl (y + lit (3 # 8)))
  && subgrid_halts fuel (fl (x - lit (3 # 8))) (fl (x + lit (3 # 8))).

Definition cells_halt (fuel : nat) (xcen ycen : A) (bbox : BoxI) : bool :=
  forallb (fun i =>
             forallb (cell_halts fuel xcen ycen i)
               (zrange (getMinX bbox) (getMaxX bbox)))
          (zrange (getMinY bbox) (getMaxY bbox)).

(** What one execution of the body does to [iter] and [interpflag]:
    it leaves [iter] alone and keeps a set [interpflag], or - the redo
    of a round when interpolation is latched - it decrements a positive
    [iter] and sets [interpflag], which was clear. *)
Definition body_step (l l' : Locals A) : Prop :=
  (l_iter l' = l_iter l /\ (l_interpflag l = true -> l_interpflag l' = true))
  \/ (l_iter l' = (l_iter l - 1)%Z /\ (0 < l_iter l)%Z
      /\ l_interpflag l = false /\ l_interpflag l' = true).

(** The measure that decreases with every execution of the body. *)
Definition rounds_left (l : Locals A) : Z :=
  (MAXIT - l_iter l + (if l_interpflag l then 0 else 1))%Z.

End Vocabulary.

Section LoopVocabulary.

Context {A : Arith}.

(** The loop only writes the centroid of the shape and sets the flags
    UNWEIGHTED and SHIFT. *)
Definition loop_keeps (s s' : Shape A) : Prop :=
  SHAPE_MAXITER (getFlags s') = SHAPE_MAXITER (getFlags s) /\
  SHAPE_UNWEIGHTED_BAD (getFlags s') = SHAPE_UNWEIGHTED_BAD (getFlags s) /\
  (SHAPE_UNWEIGHTED (getFlags s) = true -> SHAPE_UNWEIGHTED (getFlags s') = true) /\
  (SHAPE_SHIFT (getFlags s) = true -> SHAPE_SHIFT (getFlags s') = true) /\
  getI0 s' = getI0 s /\ getIxx s' = getIxx s /\ getIxy s' = getIxy s /\
  getIyy s' = getIyy s /\ getIxy4 s' = getIxy4 s /\ getCovar s' = getCovar s.

End LoopVocabulary.

(** The locals after a loop that ended with UNWEIGHTED, whose last
    weighted round left sums4 = 5 and ampW = 3, on the one-pixel image
    of value 1 with the centre at (1/2, 1/2). *)
Definition fallback_locals : Locals Exact.arith :=
  MkLocals (setFlags (Data.shape_of nan nan nan) (set_UNWEIGHTED no_flags))
    (Exact.q 3)
    (MkSums (Exact.q 0) (Exact.q 0) (Exact.q 0) (Exact.q 0) (Exact.q 0) (Exact.q 0)
       (Exact.q 5))
    (Exact.q (3 # 2)) (Exact.q 0) (Exact.q (3 # 2))
    (Exact.q (2 # 3)) (Exact.q 0) (Exact.q (2 # 3))
    (Exact.q 1000000) (Exact.q 1000000) (Exact.q 1000000)
    false Data.pixel_box 0%Z.

(** The loop entered with interpolation already latched, on the
    one-pixel image of value 0. *)
Definition latched_locals : Locals Exact.arith :=
  MkLocals (Data.shape_of nan nan nan) (Exact.q 0) Data.no_sums
    (Exact.q (3 # 2)) (Exact.q 0) (Exact.q (3 # 2))
    (Exact.q (-1)) (Exact.q (-1)) (Exact.q (-1))
    (Exact.q 1000000) (Exact.q 1000000) (Exact.q 1000000)
    true (MkBox 0 0 (-1) (-1)) 0%Z.


(** ** Order laws

    The laws of the comparisons that the theorems below use.  They hold
    for IEEE 754 arithmetic with round-to-nearest (a comparison with NaN
    is false, rounding is monotone) and for the exact arithmetic. *)
Record ArithLaws (A : Arith) : Prop := MkLaws {
  leb_refl : forall a : A, isnan a = false -> leb a a = true;
  leb_trans : forall a b c : A, leb a b = true -> leb b c = true -> leb a c = true;
  leb_total : forall a b : A,
      isnan a = false -> isnan b = false -> ltb b a = false -> leb a b = true;
  ltb_leb : forall a b : A, ltb a b = true -> leb a b = true;
  ltb_not_leb : forall a b : A, ltb a b = true -> leb b a = false;
  leb_not_ltb : forall a b : A, leb a b = true -> ltb b a = false;
  leb_not_nan : forall a b : A, leb a b = true -> isnan a = false /\ isnan b = false;
  lit_leb : forall p q : Q, (p <= q)%Q -> leb (lit p : A) (lit q) = true;
  sub_leb : forall a b e : A,
      leb (lit 0) e = true -> leb e (sub a b) = true -> leb (sub b e) a = true
}.

(** The facts about [sqrt], [pow] and [+] behind the regularization of
    getWeights.  They hold in IEEE arithmetic with round-to-nearest,
    infinities included: a square is not negative; adding a value
    x >= 0 (possibly +infinity) to the finite constant 1/12 gives at
    least 1/12, because rounding is monotone; [sqrt] is monotone on
    x >= 0. *)
Record RegLaws (A : Arith) : Prop := MkRegLaws {
  sqr_nonneg : forall x : A, isnan x = false -> leb (lit 0) (sqr x) = true;
  add_iMin : forall x : A,
      leb (lit 0) x = true ->
      leb (div (lit 1) (lit 12)) (add x (div (lit 1) (lit 12))) = true;
  sqrt_mono : forall x y : A,
      leb (lit 0) x = true -> leb x y = true -> leb (sqrt x) (sqrt y) = true;
  iMin_nonneg : leb (lit 0 : A) (div (lit 1) (lit 12)) = true;
  sqrt_iMin_pos : ltb (lit 0 : A) (sqrt (div (lit 1) (lit 12))) = true;
  ltb_leb_trans : forall a b c : A, ltb a b = true -> leb b c = true -> ltb a c = true
}.

(** ** The laws hold in the exact arithmetic *)

Module ExactFacts.
Import Exact.

#[local] Arguments Qred : simpl never.
#[local] Arguments Qplus : simpl never.
#[local] Arguments Qminus : simpl never.
#[local] Arguments Qmult : simpl never.
#[local] Arguments Qdiv : simpl never.
#[local] Arguments Qopp : simpl never.

Lemma Qltb_lt (x y : Q) : Qltb x y = true <-> (x < y)%Q.
Proof.
  unfold Qltb. rewrite negb_true_iff. split; intro H.
  - apply Qnot_le_lt. intro Hle. apply Qle_bool_iff in Hle. congruence.
  - destruct (Qle_bool y x) eqn:E; [|reflexivity].
    apply Qle_bool_iff in E. exfalso. apply (Qlt_not_le _ _ H E).
Qed.

Lemma Qltb_false (x y : Q) : Qltb x y = false <-> (y <= x)%Q.
Proof.
  unfold Qltb. rewrite negb_false_iff. apply Qle_bool_iff.
Qed.

Lemma laws : ArithLaws arith.
Proof.
  constructor; simpl.
  - intros [a|] H; [|discriminate]. simpl. apply Qle_bool_iff. apply Qle_refl.
  - intros [a|] [b|] [c|]; simpl; try discriminate. intros H1 H2.
    apply Qle_bool_iff in H1, H2. apply Qle_bool_iff. eapply Qle_trans; eauto.
  - intros [a|] [b|]; simpl; try discriminate. intros _ _ H.
    apply Qltb_false in H. apply Qle_bool_iff. exact H.
  - intros [a|] [b|]; simpl; try discriminate. intros H.
    apply Qltb_lt in H. apply Qle_bool_iff. apply Qlt_le_weak. exact H.
  - intros [a|] [b|]; simpl; try discriminate; try reflexivity. intros H.
    apply Qltb_lt in H. destruct (Qle_bool b a) eqn:E; [|reflexivity].
    apply Qle_bool_iff in E. exfalso. apply (Qlt_not_le _ _ H E).
  - intros [a|] [b|]; simpl; try discriminate; try reflexivity. intros H.
    apply Qle_bool_iff in H. apply Qltb_false. exact H.
  - intros [a|] [b|]; simpl; try discriminate. intros _. split; reflexivity.
  - intros p r H. apply Qle_bool_iff. rewrite !Qred_correct. exact H.
  - intros [a|] [b|] [e|]; simpl; try discriminate. intros H0 H.
    apply Qle_bool_iff in H0, H. apply Qle_bool_iff.
    rewrite Qred_correct in H0, H. rewrite Qred_correct. lra.
Qed.

End ExactFacts.

(** ** getWeights on a non-singular covariance *)

Section GetWeights.

Context {A : Arith} (G : Afw A) (L : ArithLaws A).
Local Open Scope fp_scope.

Lemma float_epsilon_nonneg : leb (lit 0) (@float_epsilon A) = true.
Proof.
  unfold float_epsilon. apply (lit_leb L). discriminate.
Qed.

(** A NaN among the inputs makes the call fail with NaN everywhere. *)
Lemma getWeights_nan (sigma11 sigma12 sigma22 : A) :
  isnan sigma11 || isnan sigma12 || isnan sigma22 = true ->
  getWeights G sigma11 sigma12 sigma22 = Ret ((false, nan), nan, nan, nan).
Proof.
  intros H. unfold getWeights. rewrite H. reflexivity.
Qed.

(** The first component of the result is [false] only for a NaN input. *)
Lemma getWeights_fails_iff (sigma11 sigma12 sigma22 : A) r :
  getWeights G sigma11 sigma12 sigma22 = Ret r ->
  (fst (fst (fst (fst r))) = false <->
   isnan sigma11 || isnan sigma12 || isnan sigma22 = true).
Proof.
  unfold getWeights.
  destruct (isnan sigma11 || isnan sigma12 || isnan sigma22) eqn:E.
  - intros [= <-]. simpl. tauto.
  - destruct (isnan _ || (_ <? float_epsilon)).
    + destruct (quad_inverse G _) as [[m00 m10] m11]. intros [= <-]. simpl.
      split; discriminate.
    + destruct (assert _); simpl; try discriminate.
      intros [= <-]. simpl. split; discriminate.
Qed.

(** C6. For a NaN-free covariance (sigma11, sigma12, sigma22) whose
    determinant D = sigma11 sigma22 - sigma12^2 is at least the machine
    epsilon, getWeights returns success = true, the determinant D and
    the weights (sigma22 / D, - sigma12 / D, sigma11 / D). *)
Theorem getWeights_nonsingular (sigma11 sigma12 sigma22 : A) :
  isnan sigma11 = false -> isnan sigma12 = false -> isnan sigma22 = false ->
  (float_epsilon <=? sigma11 * sigma22 - sigma12 * sigma12) = true ->
  let D := sigma11 * sigma22 - sigma12 * sigma12 in
  getWeights G sigma11 sigma12 sigma22
  = Ret ((true, D), sigma22 / D, - sigma12 / D, sigma11 / D).
Proof.
  intros N1 N2 N3 HD D. unfold D, getWeights. rewrite N1, N2, N3. simpl.
  destruct (leb_not_nan L _ _ HD) as [_ ND]. rewrite ND.
  rewrite (leb_not_ltb L _ _ HD). simpl.
  rewrite (sub_leb L _ _ _ float_epsilon_nonneg HD). reflexivity.
Qed.

End GetWeights.

(** The theorem at (2, 1, 2): D = 3 and the weights are (2/3, -1/3, 2/3). *)
Lemma getWeights_nonsingular_witness :
  getWeights Exact.afw (Exact.q 2) (Exact.q 1) (Exact.q 2)
  = Ret ((true, Exact.q 3), Exact.q (2 # 3), Exact.q (-1 # 3), Exact.q (2 # 3)).
Proof.
  apply (getWeights_nonsingular Exact.afw ExactFacts.laws
           (Exact.q 2) (Exact.q 1) (Exact.q 2)); reflexivity.
Defined.

(** ** The bounding box of set_amom_bbox *)

Section BBox.

Context {A : Arith} (G : Afw A).
Local Open Scope fp_scope.

(** C7, as the code has it.  The radius is 4 sqrt (max (sigma11, sigma22))
    clamped to the maximum radius; the lower corner is the truncation of
    centroid - radius - 0.5 raised to 0, the upper corner the truncation
    of centroid + radius + 0.5 lowered to dim - 1.  The lower corner is
    not lowered to dim - 1 and the upper corner is not raised to 0. *)
Theorem set_amom_bbox_corners (width height : Z)
  (xcen ycen sigma11_w sigma12_w sigma22_w maxRad : A) :
  let r := fl (lit 4 * sqrt (if sigma11_w >? sigma22_w then sigma11_w else sigma22_w)) in
  let rad := if r >? maxRad then maxRad else r in
  set_amom_bbox G width height xcen ycen sigma11_w sigma12_w sigma22_w maxRad
  = box_of_corners G
      (Z.max 0 (to_int (fl (xcen - rad) - lit (1 # 2))),
       Z.max 0 (to_int (fl (ycen - rad) - lit (1 # 2))))
      (Z.min (width - 1) (to_int (fl (xcen + rad) + lit (1 # 2))),
       Z.min (height - 1) (to_int (fl (ycen + rad) + lit (1 # 2)))).
Proof.
  intros r rad. unfold set_amom_bbox, amom_corners, amom_rad. fold r. fold rad.
  f_equal; f_equal.
  - destruct (Z.ltb_spec (to_int (fl (xcen - rad) - lit (1 # 2))) 0); lia.
  - destruct (Z.ltb_spec (to_int (fl (ycen - rad) - lit (1 # 2))) 0); lia.
  - destruct (Z.geb_spec (to_int (fl (xcen + rad) + lit (1 # 2))) width); lia.
  - destruct (Z.geb_spec (to_int (fl (ycen + rad) + lit (1 # 2))) height); lia.
Qed.

End BBox.

(** C7 fails as stated: on a 10 x 10 image with the centroid at
    (100, 5) and sigma11 = sigma22 = 25/16 the radius is 5, the lower
    corner is (94, 0) and the upper corner (9, 9); the lower corner is
    not inside [0, 9] and the box reaches column 94. *)
Lemma set_amom_bbox_not_clipped :
  let c := amom_corners 10 10 (Exact.q 100) (Exact.q 5)
             (Exact.q (25 # 16)) (Exact.q (25 # 16)) default_maxRad in
  let b := set_amom_bbox Exact.afw 10 10 (Exact.q 100) (Exact.q 5)
             (Exact.q (25 # 16)) (Exact.q 0) (Exact.q (25 # 16)) default_maxRad in
  c = ((94, 0), (9, 9))%Z /\ ~ corner_inside 10 10 (fst c) /\ ~ box_inside 10 10 b.
Proof.
  split; [reflexivity|]. split.
  - intros [[_ H] _]. vm_compute in H. apply H. reflexivity.
  - intros [_ [H _]]. vm_compute in H. apply H. reflexivity.
Qed.

(** In exact arithmetic a truncation raised to 0 is the floor raised to 0. *)
Lemma lower_corner_floor (x : Q) :
  Z.max 0 (Exact.xtrunc (Some x)) = Z.max 0 (Qfloor x).
Proof.
  destruct x as [n d]. unfold Exact.xtrunc, Qfloor. simpl.
  destruct (Z.le_gt_cases 0 n) as [Hn|Hn].
  - rewrite Z.quot_div_nonneg by lia. reflexivity.
  - assert (H1 : (n ÷ Z.pos d <= 0)%Z).
    { rewrite <- (Z.opp_involutive n), Z.quot_opp_l by lia.
      assert (0 <= (- n) ÷ Z.pos d)%Z by (apply Z.quot_pos; lia). lia. }
    assert (H2 : (n / Z.pos d < 0)%Z) by (apply Z.div_lt_upper_bound; lia).
    lia.
Qed.

(** ** The Fisher matrix *)

Section Fisher.

Context {A : Arith} (G : Afw A) (L : ArithLaws A).
Local Open Scope fp_scope.

(** C9. When the determinant of the shape exceeds the machine epsilon
    and the background variance is positive, calc_fisher returns a
    matrix with fisher(i, j) = fisher(j, i) for all i, j < 4. *)
Theorem calc_fisher_symmetric (uninit : Matrix4 A) (shape : Shape A) (bkgd_var : A) :
  (double_epsilon <? fisher_det shape) = true ->
  (lit 0 <? bkgd_var) = true ->
  exists fisher,
    calc_fisher G uninit shape bkgd_var = Ret fisher /\
    forall i j, (i < 4)%nat -> (j < 4)%nat -> mget fisher i j = mget fisher j i.
Proof.
  intros HD Hv. unfold calc_fisher. fold (fisher_det shape).
  rewrite (ltb_not_leb L _ _ HD), (ltb_not_leb L _ _ Hv).
  eexists. split; [reflexivity|].
  intros i j Hi Hj.
  destruct i as [|[|[|[|i]]]]; try lia;
    destruct j as [|[|[|[|j]]]]; try lia; reflexivity.
Qed.

End Fisher.

(** The theorem on the shape I0 = 1, Ixx = Iyy = 1, Ixy = 0 with
    background variance 1. *)
Lemma calc_fisher_symmetric_witness :
  exists fisher,
    calc_fisher Exact.afw (fun _ _ => Exact.q 0)
      (MkShape no_flags (Exact.q 1) (Exact.q 0) (Exact.q 0)
         (Exact.q 1) (Exact.q 0) (Exact.q 1) (Exact.q 0) (fun _ _ => Exact.q 0))
      (Exact.q 1) = Ret fisher /\
    forall i j, (i < 4)%nat -> (j < 4)%nat -> mget fisher i j = mget fisher j i.
Proof.
  apply (calc_fisher_symmetric Exact.afw ExactFacts.laws); reflexivity.
Defined.

(** ** calcmom: when it fails *)

Section Calcmom.

Context {A : Arith} (G : Afw A) (L : ArithLaws A).
Local Open Scope fp_scope.

Lemma subgrid_loop_ret (T : Type) (body : A -> T -> T) (xh : A) :
  forall fuel X acc,
    subgrid_halts fuel X xh = true ->
    exists acc', subgrid_loop fuel X xh body acc = Ret acc'.
Proof.
  induction fuel as [|n IH]; intros X acc H; simpl in *.
  - destruct (X <=? xh); [discriminate|]. eauto.
  - destruct (X <=? xh); [|eauto]. apply IH. exact H.
Qed.

Lemma subgrid_rows_ret (body : A -> A -> MomentSums A -> MomentSums A)
  (fuelX : nat) (yh xl xh : A) :
  subgrid_halts fuelX xl xh = true ->
  forall fuel Y acc,
    subgrid_halts fuel Y yh = true ->
    exists acc', subgrid_rows fuel fuelX Y yh xl xh body acc = Ret acc'.
Proof.
  intros HX. induction fuel as [|n IH]; intros Y acc H; simpl in *.
  - destruct (Y <=? yh); [discriminate|]. eauto.
  - destruct (Y <=? yh); [|eauto].
    destruct (subgrid_loop_ret (body Y) xh fuelX xl acc HX) as [acc' E].
    rewrite E. simpl. apply IH. exact H.
Qed.

Lemma pixel_step_ret (fuel : nat) (fluxOnly interpflag : bool) (image : Image A)
  (xcen ycen bkgd w11 w12 w22 : A) (i j : Z) (s : MomentSums A) :
  (interpflag = true -> cell_halts fuel xcen ycen i j = true) ->
  exists s', pixel_step fuel fluxOnly interpflag image xcen ycen bkgd w11 w12 w22 i j s
             = Ret s'.
Proof.
  intros H. unfold pixel_step. destruct interpflag; [|eauto].
  specialize (H eq_refl). unfold cell_halts in H.
  apply andb_true_iff in H. destruct H as [HY HX].
  unfold interp_pixel. destruct (_ <=? lit 9); [|eauto].
  apply subgrid_rows_ret; assumption.
Qed.

Lemma for_each_ret (T : Type) (body : Z -> T -> result T) (l : list Z) :
  (forall k acc, In k l -> exists acc', body k acc = Ret acc') ->
  forall acc, exists acc', for_each l body acc = Ret acc'.
Proof.
  induction l as [|k l IH]; intros H acc; simpl.
  - eauto.
  - destruct (H k acc (or_introl eq_refl)) as [acc' E]. rewrite E. simpl.
    apply IH. intros k' a Hk. apply H. right. exact Hk.
Qed.

Lemma accumulate_ret (fuel : nat) (fluxOnly interpflag : bool) (image : Image A)
  (xcen ycen : A) (bbox : BoxI) (bkgd w11 w12 w22 : A) :
  (interpflag = true -> cells_halt fuel xcen ycen bbox = true) ->
  exists s, accumulate fuel fluxOnly interpflag image xcen ycen bbox bkgd w11 w12 w22
            = Ret s.
Proof.
  intros H. unfold accumulate. apply for_each_ret. intros i acc Hi.
  apply for_each_ret. intros j acc' Hj. apply pixel_step_ret.
  intros E. specialize (H E). unfold cells_halt in H.
  rewrite forallb_forall in H. specialize (H i Hi).
  rewrite forallb_forall in H. exact (H j Hj).
Qed.

(** *** The two ways the loops can end *)

Lemma subgrid_loop_outcome (T : Type) (body : A -> T -> T) (xh : A) :
  forall fuel X acc,
    (exists acc', subgrid_loop fuel X xh body acc = Ret acc')
    \/ subgrid_loop fuel X xh body acc = SubgridOutOfFuel.
Proof.
  induction fuel as [|n IH]; intros X acc; simpl.
  - destruct (X <=? xh); eauto.
  - destruct (X <=? xh); eauto.
Qed.

Lemma subgrid_rows_outcome (body : A -> A -> MomentSums A -> MomentSums A)
  (fuelX : nat) (yh xl xh : A) :
  forall fuel Y acc,
    (exists acc', subgrid_rows fuel fuelX Y yh xl xh body acc = Ret acc')
    \/ subgrid_rows fuel fuelX Y yh xl xh body acc = SubgridOutOfFuel.
Proof.
  induction fuel as [|n IH]; intros Y acc; simpl.
  - destruct (Y <=? yh); eauto.
  - destruct (Y <=? yh); [|eauto].
    destruct (subgrid_loop_outcome (body Y) xh fuelX xl acc) as [[acc' E]|E];
      rewrite E; simpl; auto.
Qed.

Lemma for_each_outcome (T : Type) (body : Z -> T -> result T) (l : list Z) :
  (forall k acc, (exists acc', body k acc = Ret acc') \/ body k acc = SubgridOutOfFuel) ->
  forall acc,
    (exists acc', for_each l body acc = Ret acc') \/ for_each l body acc = SubgridOutOfFuel.
Proof.
  intros H. induction l as [|k l IH]; intros acc; simpl.
  - eauto.
  - destruct (H k acc) as [[acc' E]|E]; rewrite E; simpl; auto.
Qed.

Lemma accumulate_outcome (fuel : nat) (fluxOnly interpflag : bool) (image : Image A)
  (xcen ycen : A) (bbox : BoxI) (bkgd w11 w12 w22 : A) :
  (exists s, accumulate fuel fluxOnly interpflag image xcen ycen bbox bkgd w11 w12 w22
             = Ret s)
  \/ (accumulate fuel fluxOnly interpflag image xcen ycen bbox bkgd w11 w12 w22
      = SubgridOutOfFuel
      /\ interpflag = true /\ cells_halt fuel xcen ycen bbox = false).
Proof.
  assert (H : (exists s, accumulate fuel fluxOnly interpflag image xcen ycen bbox bkgd
                           w11 w12 w22 = Ret s)
              \/ accumulate fuel fluxOnly interpflag image xcen ycen bbox bkgd w11 w12 w22
                 = SubgridOutOfFuel).
  { unfold accumulate. apply for_each_outcome. intros i acc.
    apply for_each_outcome. intros j acc'. unfold pixel_step.
    destruct interpflag; [|eauto].
    unfold interp_pixel. destruct (_ <=? lit 9); [|eauto].
    apply subgrid_rows_outcome. }
  destruct H as [H|H]; [left; exact H|].
  destruct interpflag.
  - destruct (cells_halt fuel xcen ycen bbox) eqn:E; [|auto].
    destruct (accumulate_ret (interpflag := true) fuel fluxOnly image xcen ycen bbox
                bkgd w11 w12 w22 (fun _ => E)) as [s Es].
    rewrite Es in H. discriminate.
  - destruct (accumulate_ret (interpflag := false) fuel fluxOnly image xcen ycen bbox
                bkgd w11 w12 w22) as [s Es]; [discriminate|].
    rewrite Es in H. discriminate.
Qed.

(** *** More fuel does not change a result *)

Lemma subgrid_loop_fuel (T : Type) (body : A -> T -> T) (xh : A) :
  forall n X acc v,
    subgrid_loop n X xh body acc = Ret v ->
    forall m, (n <= m)%nat -> subgrid_loop m X xh body acc = Ret v.
Proof.
  induction n as [|n IH]; intros X acc v H m Hm; simpl in H.
  - destruct (X <=? xh) eqn:E; [discriminate|].
    destruct m; simpl; rewrite E; exact H.
  - destruct m as [|m]; [lia|]. simpl.
    destruct (X <=? xh); [|exact H].
    apply IH; [exact H | lia].
Qed.

Lemma subgrid_rows_fuel (body : A -> A -> MomentSums A -> MomentSums A) (yh xl xh : A)
  (nX mX : nat) :
  (nX <= mX)%nat ->
  forall n Y acc v,
    subgrid_rows n nX Y yh xl xh body acc = Ret v ->
    forall m, (n <= m)%nat -> subgrid_rows m mX Y yh xl xh body acc = Ret v.
Proof.
  intros HX. induction n as [|n IH]; intros Y acc v H m Hm; simpl in H.
  - destruct (Y <=? yh) eqn:E; [discriminate|].
    destruct m; simpl; rewrite E; exact H.
  - destruct m as [|m]; [lia|]. simpl.
    destruct (Y <=? yh); [|exact H].
    destruct (subgrid_loop nX xl xh (body Y) acc) as [acc'| | | |] eqn:E;
      simpl in H; try discriminate.
    eapply subgrid_loop_fuel in E; [|exact HX]. rewrite E. simpl.
    apply IH; [exact H | lia].
Qed.

Lemma for_each_mono (T : Type) (body body' : Z -> T -> result T) (l : list Z) :
  (forall k acc v, body k acc = Ret v -> body' k acc = Ret v) ->
  forall acc v, for_each l body acc = Ret v -> for_each l body' acc = Ret v.
Proof.
  intros H. induction l as [|k l IH]; intros acc v E; simpl in *.
  - exact E.
  - destruct (body k acc) as [acc'| | | |] eqn:Ek; simpl in E; try discriminate.
    rewrite (H _ _ _ Ek). simpl. apply IH. exact E.
Qed.

Lemma accumulate_fuel (n m : nat) (fluxOnly interpflag : bool) (image : Image A)
  (xcen ycen : A) (bbox : BoxI) (bkgd w11 w12 w22 : A) (s : MomentSums A) :
  (n <= m)%nat ->
  accumulate n fluxOnly interpflag image xcen ycen bbox bkgd w11 w12 w22 = Ret s ->
  accumulate m fluxOnly interpflag image xcen ycen bbox bkgd w11 w12 w22 = Ret s.
Proof.
  intros Hm. unfold accumulate. apply for_each_mono. intros i acc v.
  apply for_each_mono. intros j acc' v'. unfold pixel_step.
  destruct interpflag; [|auto].
  unfold interp_pixel. destruct (_ <=? lit 9); [|auto].
  intros E. eapply subgrid_rows_fuel; [exact Hm | exact E | exact Hm].
Qed.

Lemma calcmom_fuel (n m : nat) (fluxOnly : bool) (image : Image A)
  (xcen ycen : A) (bbox : BoxI) (bkgd : A) (interpflag : bool) (w11 w12 w22 : A)
  (outs : MomentSums A) (want_s4 : bool) (r : Z * MomentSums A) :
  (n <= m)%nat ->
  calcmom n fluxOnly image xcen ycen bbox bkgd interpflag w11 w12 w22 outs want_s4 = Ret r ->
  calcmom m fluxOnly image xcen ycen bbox bkgd interpflag w11 w12 w22 outs want_s4 = Ret r.
Proof.
  intros Hm. unfold calcmom, assert.
  destruct (lit 0 <=? w11); simpl; [|discriminate].
  destruct (weights_too_large w11 w12 w22); [auto|].
  destruct (box_outside image bbox); [auto|].
  destruct (accumulate n fluxOnly interpflag image xcen ycen bbox bkgd w11 w12 w22)
    as [s| | | |] eqn:E; simpl; try discriminate.
  eapply accumulate_fuel in E; [|exact Hm]. rewrite E. simpl. auto.
Qed.

(** A failed assertion stops the call whatever the fuel. *)
Lemma calcmom_assert (fuel : nat) (fluxOnly : bool) (image : Image A)
  (xcen ycen : A) (bbox : BoxI) (bkgd : A) (interpflag : bool) (w11 w12 w22 : A)
  (outs : MomentSums A) (want_s4 : bool) :
  (lit 0 <=? w11) = false ->
  calcmom fuel fluxOnly image xcen ycen bbox bkgd interpflag w11 w12 w22 outs want_s4
  = AssertFailed.
Proof.
  intros H. unfold calcmom. rewrite H. reflexivity.
Qed.

(** C8, as the code has it.  calcmom first asserts w11 >= 0: when the
    test fails (w11 negative or NaN) the call stops at the assertion,
    for every fuel.  Otherwise the call either returns - and then with
    the same result for every larger fuel - or, with the interpolation
    flag set and neither early test taken, a sub-pixel loop has not
    finished within the fuel.  A call that returns gives -1 exactly
    when some weight has |w| > 1e6, or the box reaches outside the
    image, or - in full mode only - the accumulated sum, sumxx or sumyy
    is not positive; otherwise it gives 0 and writes the sums. *)
Theorem calcmom_fails_iff (fuel : nat) (fluxOnly : bool) (image : Image A)
  (xcen ycen : A) (bbox : BoxI) (bkgd : A) (interpflag : bool) (w11 w12 w22 : A)
  (outs : MomentSums A) (want_s4 : bool) :
  let run := fun n =>
    calcmom n fluxOnly image xcen ycen bbox bkgd interpflag w11 w12 w22 outs want_s4 in
  let sums := accumulate fuel fluxOnly interpflag image xcen ycen bbox bkgd w11 w12 w22 in
  ((lit 0 <=? w11) = false /\ forall n, run n = AssertFailed)
  \/
  ((lit 0 <=? w11) = true /\
   ((weights_too_large w11 w12 w22 = false /\ box_outside image bbox = false /\
     interpflag = true /\ cells_halt fuel xcen ycen bbox = false /\
     run fuel = SubgridOutOfFuel)
    \/
    (exists status outs',
       (forall n, (fuel <= n)%nat -> run n = Ret (status, outs')) /\
       (status = (-1)%Z \/ status = 0%Z) /\
       (status = (-1)%Z <->
          weights_too_large w11 w12 w22 = true \/
          box_outside image bbox = true \/
          (fluxOnly = false /\
           exists s, sums = Ret s /\
             ((sum s >? lit 0) = false \/ (sumxx s >? lit 0) = false
              \/ (sumyy s >? lit 0) = false))) /\
       (status = 0%Z ->
        exists s, sums = Ret s /\ outs' = write_sums fluxOnly want_s4 s outs)))).
Proof.
  intros run sums.
  destruct (lit 0 <=? w11) eqn:Hw.
  2:{ left. split; [reflexivity|]. intros n. apply calcmom_assert. exact Hw. }
  right. split; [reflexivity|].
  assert (Hrun : forall r, run fuel = Ret r -> forall n, (fuel <= n)%nat -> run n = Ret r).
  { intros r E n Hn. eapply calcmom_fuel; [exact Hn | exact E]. }
  unfold run in *. unfold calcmom in *. rewrite Hw in *. simpl in *.
  destruct (weights_too_large w11 w12 w22) eqn:Ew.
  { right. exists (-1)%Z, outs. split; [apply Hrun; reflexivity|].
    repeat split; auto; discriminate. }
  destruct (box_outside image bbox) eqn:Eb.
  { right. exists (-1)%Z, outs. split; [apply Hrun; reflexivity|].
    repeat split; auto; discriminate. }
  destruct (accumulate_outcome fuel fluxOnly interpflag image xcen ycen bbox bkgd
              w11 w12 w22) as [[s Es]|[Es [Hi Hc]]].
  2:{ left. rewrite Es. simpl. auto. }
  right. unfold sums. rewrite Es in *. simpl in *.
  eexists _, _. split; [apply Hrun; reflexivity|].
  destruct fluxOnly; simpl.
  - split; [auto|]. split; [|intros _; eauto].
    split; [discriminate|]. intros [H|[H|[H _]]]; discriminate.
  - destruct (sum s >? lit 0) eqn:E1; simpl;
      [destruct (sumxx s >? lit 0) eqn:E2; simpl;
       [destruct (sumyy s >? lit 0) eqn:E3; simpl|]|].
    + split; [auto|]. split; [|intros _; eauto].
      split; [discriminate|].
      intros [H|[H|[_ [s' [[= <-] [H|[H|H]]]]]]]; congruence.
    + split; [auto|]. split; [|discriminate]. split; [|reflexivity].
      intros _. right. right. split; [reflexivity|]. exists s. auto.
    + split; [auto|]. split; [|discriminate]. split; [|reflexivity].
      intros _. right. right. split; [reflexivity|]. exists s. auto.
    + split; [auto|]. split; [|discriminate]. split; [|reflexivity].
      intros _. right. right. split; [reflexivity|]. exists s. auto.
Qed.


(** In fluxOnly mode only the two early tests can make calcmom fail. *)
Lemma calcmom_fluxOnly_ret (fuel : nat) (image : Image A)
  (xcen ycen : A) (bbox : BoxI) (bkgd : A) (interpflag : bool) (w11 w12 w22 : A)
  (outs : MomentSums A) (want_s4 : bool) (s : MomentSums A) :
  (lit 0 <=? w11) = true ->
  weights_too_large w11 w12 w22 = false ->
  box_outside image bbox = false ->
  accumulate fuel true interpflag image xcen ycen bbox bkgd w11 w12 w22 = Ret s ->
  calcmom fuel true image xcen ycen bbox bkgd interpflag w11 w12 w22 outs want_s4
  = Ret (0%Z, write_sums true want_s4 s outs).
Proof.
  intros Hw Hl Hb Es. unfold calcmom. rewrite Hw, Hl, Hb, Es. reflexivity.
Qed.

Lemma weights_within_bounds (w11 w12 w22 : A) :
  (fabs w11 <=? lit 1000000) = true ->
  (fabs w12 <=? lit 1000000) = true ->
  (fabs w22 <=? lit 1000000) = true ->
  weights_too_large w11 w12 w22 = false.
Proof.
  intros H11 H12 H22. unfold weights_too_large.
  rewrite (leb_not_ltb L _ _ H11), (leb_not_ltb L _ _ H12), (leb_not_ltb L _ _ H22).
  reflexivity.
Qed.

(** C10, as the code has it.  In fluxOnly mode, with the box inside the
    image and |w11|, |w12|, |w22| <= 1e6, the call stops at its
    assertion when w11 >= 0 fails; otherwise, once the sub-pixel loops
    have finished, it returns 0 whatever the sums are and leaves the
    accumulated sum in [*psum], for every larger fuel too. *)
Theorem calcmom_fluxOnly_succeeds (fuel : nat) (image : Image A)
  (xcen ycen : A) (bbox : BoxI) (bkgd : A) (interpflag : bool) (w11 w12 w22 : A)
  (outs : MomentSums A) (want_s4 : bool) :
  (fabs w11 <=? lit 1000000) = true ->
  (fabs w12 <=? lit 1000000) = true ->
  (fabs w22 <=? lit 1000000) = true ->
  box_outside image bbox = false ->
  let run := fun n =>
    calcmom n true image xcen ycen bbox bkgd interpflag w11 w12 w22 outs want_s4 in
  ((lit 0 <=? w11) = false /\ forall n, run n = AssertFailed)
  \/
  ((lit 0 <=? w11) = true /\
   ((interpflag = true /\ cells_halt fuel xcen ycen bbox = false /\
     run fuel = SubgridOutOfFuel)
    \/
    (exists s,
       accumulate fuel true interpflag image xcen ycen bbox bkgd w11 w12 w22 = Ret s /\
       (forall n, (fuel <= n)%nat -> run n = Ret (0%Z, write_sums true want_s4 s outs)) /\
       sum (write_sums true want_s4 s outs) = sum s))).
Proof.
  intros H11 H12 H22 Hb run.
  pose proof (weights_within_bounds _ _ _ H11 H12 H22) as Hl.
  destruct (lit 0 <=? w11) eqn:Hw.
  2:{ left. split; [reflexivity|]. intros n. apply calcmom_assert. exact Hw. }
  right. split; [reflexivity|].
  destruct (accumulate_outcome fuel true interpflag image xcen ycen bbox bkgd
              w11 w12 w22) as [[s Es]|[Es [Hi Hc]]].
  - right. exists s. split; [exact Es|]. split; [|reflexivity].
    intros n Hn. unfold run. apply calcmom_fluxOnly_ret; try assumption.
    eapply accumulate_fuel; [exact Hn | exact Es].
  - left. split; [exact Hi|]. split; [exact Hc|].
    unfold run, calcmom. rewrite Hw, Hl, Hb, Es. reflexivity.
Qed.

End Calcmom.

(** C8 fails as stated.  A one-pixel image, the box of that pixel and
    the weights (-1, 0, 1) in full mode: no weight is above 1e6 and the
    box is inside the image, yet the call neither returns -1 nor
    succeeds: it stops at [assert(w11 >= 0)]. *)
Lemma calcmom_negative_w11_aborts :
  let image := Data.one_pixel (Exact.q 1) in
  weights_too_large (Exact.q (-1)) (Exact.q 0) (Exact.q 1) = false /\
  box_outside image Data.pixel_box = false /\
  calcmom 5 false image (Exact.q 0) (Exact.q 0) Data.pixel_box (Exact.q 0) false
    (Exact.q (-1)) (Exact.q 0) (Exact.q 1) Data.no_sums true = AssertFailed.
Proof.
  repeat split; vm_compute; reflexivity.
Qed.

(** C10 fails as stated.  The weights (-1, 0, -1) are within 1e6 and
    the box is inside the image, but calcmom<true> stops at its
    assertion.  getFixedMomentsFlux reaches that call with the moments
    (-1, 0, -1): their determinant is 1, getWeights succeeds and returns
    the weights (-1, 0, -1). *)
Lemma calcmom_fluxOnly_aborts :
  let image := Data.one_pixel (Exact.q 1) in
  leb (fabs (Exact.q (-1))) (lit 1000000) = true /\
  leb (fabs (Exact.q 0)) (lit 1000000) = true /\
  box_outside image Data.pixel_box = false /\
  calcmom 5 true image (Exact.q 0) (Exact.q 0) Data.pixel_box (Exact.q 0) false
    (Exact.q (-1)) (Exact.q 0) (Exact.q (-1)) Data.no_sums false = AssertFailed /\
  getWeights Exact.afw (Exact.q (-1)) (Exact.q 0) (Exact.q (-1))
  = Ret ((true, Exact.q 1), Exact.q (-1), Exact.q 0, Exact.q (-1)) /\
  getFixedMomentsFlux Exact.afw 5 image (Exact.q 0) (Exact.q 0) (Exact.q 0)
    (Data.shape_of (Exact.q (-1)) (Exact.q 0) (Exact.q (-1))) = AssertFailed.
Proof.
  repeat split; vm_compute; reflexivity.
Qed.

(** The theorem on a one-pixel image of value -1 with weights (1, 0, 1):
    the call succeeds and the sum is -1. *)
Lemma calcmom_fluxOnly_succeeds_witness :
  exists s,
    accumulate 5 true false (Data.one_pixel (Exact.q (-1))) (Exact.q 0) (Exact.q 0)
      Data.pixel_box (Exact.q 0) (Exact.q 1) (Exact.q 0) (Exact.q 1) = Ret s /\
    calcmom 5 true (Data.one_pixel (Exact.q (-1))) (Exact.q 0) (Exact.q 0)
      Data.pixel_box (Exact.q 0) false (Exact.q 1) (Exact.q 0) (Exact.q 1)
      Data.no_sums false = Ret (0%Z, write_sums true false s Data.no_sums) /\
    sum (write_sums true false s Data.no_sums) = sum s.
Proof.
  destruct (@calcmom_fluxOnly_succeeds Exact.arith ExactFacts.laws 5
              (Data.one_pixel (Exact.q (-1))) (Exact.q 0) (Exact.q 0)
              Data.pixel_box (Exact.q 0) false (Exact.q 1) (Exact.q 0) (Exact.q 1)
              Data.no_sums false eq_refl eq_refl eq_refl eq_refl)
    as [[H _]|[_ [[H _]|[s [Es [Hr Hs]]]]]]; try discriminate H.
  exists s. split; [exact Es|]. split; [apply Hr; apply le_n | exact Hs].
Defined.

(** ** getFixedMomentsFlux *)

Section FixedFlux.

Context {A : Arith} (G : Afw A) (L : ArithLaws A).
Local Open Scope fp_scope.

(** A failed getWeights gives (NaN, NaN). *)
Lemma getFixedMomentsFlux_weights_fail (fuel : nat) (image : Image A)
  (bkgd xcen ycen : A) (shape : Shape A) :
  isnan (getIxx shape) || isnan (getIxy shape) || isnan (getIyy shape) = true ->
  getFixedMomentsFlux G fuel image bkgd xcen ycen shape = Ret (nan, nan).
Proof.
  intros H. unfold getFixedMomentsFlux. rewrite (getWeights_nan G _ _ _ H).
  reflexivity.
Qed.

(** The flux error is NaN whenever the call returns. *)
Lemma getFixedMomentsFlux_error_nan (fuel : nat) (image : Image A)
  (bkgd xcen ycen : A) (shape : Shape A) (flux err : A) :
  getFixedMomentsFlux G fuel image bkgd xcen ycen shape = Ret (flux, err) ->
  err = nan.
Proof.
  unfold getFixedMomentsFlux.
  destruct (getWeights G _ _ _) as [[[[[ok det] w11] w12] w22]| | | |];
    simpl; try discriminate.
  destruct ok; simpl.
  - destruct (calcmom _ _ _ _ _ _ _ _ _ _ _ _ _) as [r| | | |]; simpl; try discriminate.
    intros [= _ <-]. reflexivity.
  - intros [= _ <-]. reflexivity.
Qed.

(** C2, what the code does when calcmom fails.  In fluxOnly mode
    calcmom fails only at its two early tests, before [*psum] is
    written; its status is not looked at, and the flux returned is the
    initial value 0 of [sum], not NaN. *)
Theorem getFixedMomentsFlux_ignores_calcmom_status (fuel : nat) (image : Image A)
  (bkgd xcen ycen : A) (shape : Shape A) (det w11 w12 w22 : A) :
  let bbox := set_amom_bbox G (getWidth image) (getHeight image) (fl xcen) (fl ycen)
                (getIxx shape) (getIxy shape) (getIyy shape) default_maxRad in
  let zeros := MkSums (lit 0) (lit 0) (lit 0) (lit 0) (lit 0) (lit 0) (lit 0) in
  getWeights G (getIxx shape) (getIxy shape) (getIyy shape)
  = Ret ((true, det), w11, w12, w22) ->
  (lit 0 <=? w11) = true ->
  weights_too_large w11 w12 w22 || box_outside image bbox = true ->
  calcmom fuel true image (fl xcen) (fl ycen) bbox (fl bkgd)
    (getInterp (getIxx shape) (getIyy shape) det) w11 w12 w22 zeros false
  = Ret ((-1)%Z, zeros)
  /\ getFixedMomentsFlux G fuel image bkgd xcen ycen shape = Ret (lit 0, nan).
Proof.
  intros bbox zeros Hg Hw Hl.
  assert (Hc : forall bk ip,
             calcmom fuel true image (fl xcen) (fl ycen) bbox bk ip w11 w12 w22 zeros false
             = Ret ((-1)%Z, zeros)).
  { intros. unfold calcmom. rewrite Hw. simpl.
    destruct (weights_too_large w11 w12 w22); [reflexivity|].
    simpl in Hl. rewrite Hl. reflexivity. }
  split; [apply Hc|].
  unfold getFixedMomentsFlux. rewrite Hg. simpl. fold bbox. fold zeros.
  rewrite Hc. reflexivity.
Qed.

(** With the box inside the image and weights within bounds, the flux
    returned is the accumulated sum, whatever its sign, for every
    larger fuel too; the call fails to return only when, with
    interpolation on, a sub-pixel loop has not finished. *)
Lemma getFixedMomentsFlux_returns_sum (fuel : nat) (image : Image A)
  (bkgd xcen ycen : A) (shape : Shape A) (det w11 w12 w22 : A) :
  let bbox := set_amom_bbox G (getWidth image) (getHeight image) (fl xcen) (fl ycen)
                (getIxx shape) (getIxy shape) (getIyy shape) default_maxRad in
  let interp := getInterp (getIxx shape) (getIyy shape) det in
  getWeights G (getIxx shape) (getIxy shape) (getIyy shape)
  = Ret ((true, det), w11, w12, w22) ->
  (lit 0 <=? w11) = true ->
  (fabs w11 <=? lit 1000000) = true ->
  (fabs w12 <=? lit 1000000) = true ->
  (fabs w22 <=? lit 1000000) = true ->
  box_outside image bbox = false ->
  (interp = true /\ cells_halt fuel (fl xcen) (fl ycen) bbox = false /\
   getFixedMomentsFlux G fuel image bkgd xcen ycen shape = SubgridOutOfFuel)
  \/
  (exists s,
     accumulate fuel true interp image (fl xcen) (fl ycen) bbox (fl bkgd) w11 w12 w22
     = Ret s /\
     forall n, (fuel <= n)%nat ->
       getFixedMomentsFlux G n image bkgd xcen ycen shape = Ret (sum s, nan)).
Proof.
  intros bbox interp Hg Hw H11 H12 H22 Hb.
  pose proof (weights_within_bounds L _ _ _ H11 H12 H22) as Hl.
  destruct (accumulate_outcome fuel true interp image (fl xcen) (fl ycen) bbox (fl bkgd)
              w11 w12 w22) as [[s Es]|[Es [Hi Hc]]].
  - right. exists s. split; [exact Es|]. intros n Hn.
    unfold getFixedMomentsFlux. rewrite Hg. simpl. fold bbox. fold interp.
    erewrite calcmom_fluxOnly_ret; [reflexivity | exact Hw | exact Hl | exact Hb |].
    eapply accumulate_fuel; [exact Hn | exact Es].
  - left. split; [exact Hi|]. split; [exact Hc|].
    unfold getFixedMomentsFlux. rewrite Hg. simpl. fold bbox. fold interp.
    unfold calcmom. rewrite Hw, Hl, Hb, Es. reflexivity.
Qed.

End FixedFlux.

(** The failing input of C2: a one-pixel image of value 1 and the fixed
    covariance (1e-7, 0, 2).  Its determinant 2e-7 is above the float
    epsilon, w11 = 1e7 is above 1e6, calcmom returns -1 and the flux
    returned is 0. *)
Lemma getFixedMomentsFlux_ignores_calcmom_status_witness :
  calcmom 5 true (Data.one_pixel (Exact.q 1)) (Exact.q 0) (Exact.q 0)
    (set_amom_bbox Exact.afw 1 1 (Exact.q 0) (Exact.q 0)
       (Exact.q (1 # 10000000)) (Exact.q 0) (Exact.q 2) default_maxRad)
    (Exact.q 0) false (Exact.q 10000000) (Exact.q 0) (Exact.q (1 # 2))
    (MkSums (lit 0) (lit 0) (lit 0) (lit 0) (lit 0) (lit 0) (lit 0)) false
  = Ret ((-1)%Z, MkSums (lit 0) (lit 0) (lit 0) (lit 0) (lit 0) (lit 0) (lit 0))
  /\ getFixedMomentsFlux Exact.afw 5 (Data.one_pixel (Exact.q 1))
       (Exact.q 0) (Exact.q 0) (Exact.q 0)
       (Data.shape_of (Exact.q (1 # 10000000)) (Exact.q 0) (Exact.q 2))
     = Ret (Exact.q 0, nan).
Proof.
  exact (@getFixedMomentsFlux_ignores_calcmom_status Exact.arith Exact.afw 5
           (Data.one_pixel (Exact.q 1)) (Exact.q 0) (Exact.q 0) (Exact.q 0)
           (Data.shape_of (Exact.q (1 # 10000000)) (Exact.q 0) (Exact.q 2))
           (Exact.q (2 # 10000000)) (Exact.q 10000000) (Exact.q 0) (Exact.q (1 # 2))
           eq_refl eq_refl eq_refl).
Defined.

(** A negative flux with no sign of failure: a one-pixel image of value
    -1 and the covariance (1, 0, 1). *)
Lemma getFixedMomentsFlux_negative :
  getFixedMomentsFlux Exact.afw 5 (Data.one_pixel (Exact.q (-1)))
    (Exact.q 0) (Exact.q 0) (Exact.q 0)
    (Data.shape_of (Exact.q 1) (Exact.q 0) (Exact.q 1))
  = Ret (Exact.q (-1), nan).
Proof. reflexivity. Qed.

(** ** calcmom: which cells the interpolated path skips *)

Section InterpCell.

Context {A : Arith} (L : ArithLaws A).
Local Open Scope fp_scope.

(** [(a > b) ? a : b] is below a bound exactly when both are. *)
Lemma max_leb (a b n : A) :
  isnan a = false -> isnan b = false ->
  ((if a >? b then a else b) <=? n) = (a <=? n) && (b <=? n).
Proof.
  intros Na Nb. destruct (a >? b) eqn:E.
  - destruct (a <=? n) eqn:Ea; [|reflexivity]. simpl. symmetry.
    apply (leb_trans L b a n); [apply (ltb_leb L); exact E | exact Ea].
  - destruct (b <=? n) eqn:Eb; [|symmetry; apply andb_false_r].
    rewrite andb_true_r. symmetry. apply (leb_trans L a b n); [|exact Eb].
    apply (leb_total L); assumption.
Qed.

Lemma max_not_nan (a b : A) :
  isnan a = false -> isnan b = false -> isnan (if a >? b then a else b) = false.
Proof.
  intros Na Nb. destruct (a >? b); assumption.
Qed.

Lemma cell_expon_leb (xl xh yl yh w11 w12 w22 n : A) :
  isnan (corner_expon xl yl w11 w12 w22) = false ->
  isnan (corner_expon xh yh w11 w12 w22) = false ->
  isnan (corner_expon xl yh w11 w12 w22) = false ->
  isnan (corner_expon xh yl w11 w12 w22) = false ->
  (cell_expon xl xh yl yh w11 w12 w22 <=? n)
  = (corner_expon xl yl w11 w12 w22 <=? n) && (corner_expon xh yh w11 w12 w22 <=? n)
    && (corner_expon xl yh w11 w12 w22 <=? n) && (corner_expon xh yl w11 w12 w22 <=? n).
Proof.
  intros N1 N2 N3 N4. unfold cell_expon.
  rewrite max_leb; [|repeat apply max_not_nan; assumption | assumption].
  rewrite max_leb; [|repeat apply max_not_nan; assumption | assumption].
  rewrite max_leb; [|assumption | assumption].
  reflexivity.
Qed.

(** C1, as the code has it.  With the four corner exponents of the
    cell of pixel (j, i) free of NaN, the interpolated path runs the
    0.25-spaced sub-grid of the cell when all four corner exponents are
    at most 9, and skips the cell as soon as one of them exceeds 9. *)
Theorem interp_pixel_cell_rule (fuel : nat) (fluxOnly : bool) (image : Image A)
  (xcen ycen bkgd w11 w12 w22 : A) (i j : Z) (s : MomentSums A) :
  let y := fl (of_int i - ycen) in
  let yl := fl (y - lit (3 # 8)) in
  let yh := fl (y + lit (3 # 8)) in
  let x := fl (of_int j - xcen) in
  let xl := fl (x - lit (3 # 8)) in
  let xh := fl (x + lit (3 # 8)) in
  let c1 := corner_expon xl yl w11 w12 w22 in
  let c2 := corner_expon xh yh w11 w12 w22 in
  let c3 := corner_expon xl yh w11 w12 w22 in
  let c4 := corner_expon xh yl w11 w12 w22 in
  isnan c1 = false -> isnan c2 = false -> isnan c3 = false -> isnan c4 = false ->
  interp_pixel fuel fluxOnly image xcen ycen bkgd w11 w12 w22 i j s
  = (if (c1 <=? lit 9) && (c2 <=? lit 9) && (c3 <=? lit 9) && (c4 <=? lit 9)
     then subgrid_rows fuel fuel yl yh xl xh
            (sample fluxOnly xcen ycen (fl (pixel image j i - bkgd)) w11 w12 w22) s
     else Ret s)
  /\ ((c1 >? lit 9) || (c2 >? lit 9) || (c3 >? lit 9) || (c4 >? lit 9) = true ->
      interp_pixel fuel fluxOnly image xcen ycen bkgd w11 w12 w22 i j s = Ret s).
Proof.
  intros y yl yh x xl xh c1 c2 c3 c4 N1 N2 N3 N4.
  assert (E : interp_pixel fuel fluxOnly image xcen ycen bkgd w11 w12 w22 i j s
              = (if (c1 <=? lit 9) && (c2 <=? lit 9) && (c3 <=? lit 9) && (c4 <=? lit 9)
                 then subgrid_rows fuel fuel yl yh xl xh
                        (sample fluxOnly xcen ycen (fl (pixel image j i - bkgd))
                           w11 w12 w22) s
                 else Ret s)).
  { unfold interp_pixel. fold y. fold yl. fold yh. fold x. fold xl. fold xh.
    rewrite cell_expon_leb by assumption. reflexivity. }
  split; [exact E|].
  intros H. rewrite E.
  assert (Hgt : forall c : A, (c >? lit 9) = true -> (c <=? lit 9) = false).
  { intros c Hc. apply (ltb_not_leb L). exact Hc. }
  repeat rewrite orb_true_iff in H.
  destruct H as [[[H|H]|H]|H]; rewrite (Hgt _ H);
    repeat rewrite ?andb_false_r, ?andb_false_l; reflexivity.
Qed.

End InterpCell.

(** C1 fails as stated.  Weights (1, 0, 1), centroid (0, 0), pixel
    (3, 0): the corner at (2.625, -0.375) has exponent 7.03125 <= 9, the
    corner at (3.375, 0.375) has exponent 11.53125 > 9, and the cell is
    skipped although its sub-grid would have added a positive amount to
    [sum]. *)
Lemma interp_pixel_skips_cell_with_low_corner :
  let image := MkImage 4 1 (fun _ _ => Exact.q 1) (fun _ _ => nan) in
  corner_expon (Exact.q (21 # 8)) (Exact.q (-3 # 8)) (Exact.q 1) (Exact.q 0) (Exact.q 1)
  = Exact.q (225 # 32) /\
  leb (Exact.q (225 # 32)) (lit 9) = true /\
  interp_pixel 5 false image (Exact.q 0) (Exact.q 0) (Exact.q 0)
    (Exact.q 1) (Exact.q 0) (Exact.q 1) 0 3 zero_sums = Ret zero_sums /\
  match
    subgrid_rows 5 5 (Exact.q (-3 # 8)) (Exact.q (3 # 8))
      (Exact.q (21 # 8)) (Exact.q (27 # 8))
      (sample false (Exact.q 0) (Exact.q 0) (Exact.q 1) (Exact.q 1) (Exact.q 0) (Exact.q 1))
      zero_sums
  with
  | Ret s => ltb (lit 0) (sum s)
  | _ => false
  end = true.
Proof.
  repeat split; vm_compute; reflexivity.
Qed.

(** The cell rule at that cell. *)
Lemma interp_pixel_cell_rule_witness :
  let image := MkImage 4 1 (fun _ _ => Exact.q 1) (fun _ _ => nan) in
  interp_pixel 5 false image (Exact.q 0) (Exact.q 0) (Exact.q 0)
    (Exact.q 1) (Exact.q 0) (Exact.q 1) 0 3 zero_sums = Ret zero_sums.
Proof.
  exact (proj2 (@interp_pixel_cell_rule Exact.arith ExactFacts.laws 5 false
                  (MkImage 4 1 (fun _ _ => Exact.q 1) (fun _ _ => nan))
                  (Exact.q 0) (Exact.q 0) (Exact.q 0) (Exact.q 1) (Exact.q 0) (Exact.q 1)
                  0 3 zero_sums eq_refl eq_refl eq_refl eq_refl) eq_refl).
Defined.

(** ** getAdaptiveMoments: the unweighted fallback *)

Section Fallback.

Context {A : Arith} (G : Afw A).
Local Open Scope fp_scope.

(** With the UNWEIGHTED flag set, [report] stores the moments it is
    given and does not compute a covariance. *)
Lemma report_unweighted (uninit : Matrix4 A) (image : Image A) (xcen ycen ampW : A)
  (shape : Shape A) (sums : MomentSums A) (s11 s12 s22 : A) :
  SHAPE_UNWEIGHTED (getFlags shape) = true ->
  report G uninit image xcen ycen ampW shape sums s11 s12 s22
  = Ret (true, setIxy4 (setIyy (setIxy (setIxx (setI0 shape ampW) s11) s12) s22)
                 (sums4 sums / sum sums)).
Proof.
  intros H. unfold report. simpl. rewrite H. simpl. rewrite andb_false_r.
  destruct (negb _); [|reflexivity].
  destruct (_ && _); reflexivity.
Qed.

(** C3, as the code has it.  When the UNWEIGHTED flag is set after the
    loop, calcmom is rerun with weights (0, 0, 0) over the last box.
    If the rerun fails or its sum is <= 0 the call returns false with
    UNWEIGHTED cleared and UNWEIGHTED_BAD set; the single-pixel moments
    (1/12, 0, 1/12) are stored only if sum > 0, otherwise the moments
    of the shape are left as they were.  If the rerun succeeds with
    sum > 0 the call returns true with Ixx = sumxx / sum,
    Ixy = sumxy / sum, Iyy = sumyy / sum. *)
Theorem unweighted_fallback (fuel : nat) (uninit : Matrix4 A) (image : Image A)
  (bkgd xcen ycen : A) (l : Locals A) (status : Z) (sums : MomentSums A) :
  SHAPE_UNWEIGHTED (getFlags (after_loop_shape l)) = true ->
  unweighted_rerun fuel image bkgd xcen ycen l = Ret (status, sums) ->
  let shape := after_loop_shape l in
  let bad := setFlags shape (set_UNWEIGHTED_BAD (clear_UNWEIGHTED (getFlags shape))) in
  ((status <? 0)%Z || (sum sums <=? lit 0) = true ->
   exists shape',
     finish G fuel uninit image bkgd xcen ycen l = Ret (false, shape') /\
     SHAPE_UNWEIGHTED_BAD (getFlags shape') = true /\
     SHAPE_UNWEIGHTED (getFlags shape') = false /\
     ((sum sums >? lit 0) = true ->
      shape' = setIyy (setIxy (setIxx bad (lit 1 / lit 12)) (lit 0)) (lit 1 / lit 12)) /\
     ((sum sums >? lit 0) = false -> shape' = bad)) /\
  ((status <? 0)%Z || (sum sums <=? lit 0) = false ->
   exists shape',
     finish G fuel uninit image bkgd xcen ycen l = Ret (true, shape') /\
     getIxx shape' = sumxx sums / sum sums /\
     getIxy shape' = sumxy sums / sum sums /\
     getIyy shape' = sumyy sums / sum sums /\
     getFlags shape' = getFlags shape).
Proof.
  intros Hu Hr shape bad. unfold finish. rewrite Hu, Hr. fold shape. simpl.
  split; intros Hc; rewrite Hc.
  - exists (unweighted_bad shape sums). split; [reflexivity|].
    unfold unweighted_bad. fold bad.
    destruct (sum sums >? lit 0); simpl; repeat split; auto; discriminate.
  - rewrite report_unweighted by exact Hu.
    eexists. split; [reflexivity|]. simpl. auto.
Qed.

End Fallback.

(** C3 fails as stated.  On a one-pixel image of value 0 (background 0,
    centre (0, 0)) the first round's calcmom fails with sum = 0, the
    unweighted rerun gives sum = 0 again, and the call returns false
    with UNWEIGHTED_BAD while Ixx, Ixy, Iyy keep the values the caller's
    shape had (here NaN), not (1/12, 0, 1/12). *)
Lemma unweighted_bad_keeps_moments :
  let shape := setFlags (Data.shape_of nan nan nan) (set_UNWEIGHTED_BAD no_flags) in
  getAdaptiveMoments Exact.afw 101 5 Data.no_sums (fun _ _ => nan)
    (Data.one_pixel (Exact.q 0)) (Exact.q 0) (Exact.q 0) (Exact.q 0) (Exact.q 1)
    (Data.shape_of nan nan nan) = Ret (false, shape) /\
  SHAPE_UNWEIGHTED_BAD (getFlags shape) = true /\
  getIxx shape = nan /\ getIxy shape = nan /\ getIyy shape = nan /\
  getIxx shape <> Exact.q (1 # 12).
Proof.
  split; [vm_compute; reflexivity|].
  repeat split; discriminate.
Qed.

(** The fallback on the locals left by that first round: the rerun has
    status -1 and sum 0, and the moments stay as they were. *)
Lemma unweighted_fallback_witness :
  let l := MkLocals
             (setFlags (Data.shape_of nan nan nan) (set_UNWEIGHTED no_flags))
             (Exact.q 0) (@zero_sums Exact.arith)
             (Exact.q (3 # 2)) (Exact.q 0) (Exact.q (3 # 2))
             (Exact.q (2 # 3)) (Exact.q 0) (Exact.q (2 # 3))
             (Exact.q 1000000) (Exact.q 1000000) (Exact.q 1000000)
             false Data.pixel_box 0%Z in
  exists shape',
    finish Exact.afw 5 (fun _ _ => nan) (Data.one_pixel (Exact.q 0))
      (Exact.q 0) (Exact.q 0) (Exact.q 0) l = Ret (false, shape') /\
    SHAPE_UNWEIGHTED_BAD (getFlags shape') = true /\
    SHAPE_UNWEIGHTED (getFlags shape') = false /\
    getIxx shape' = nan.
Proof.
  intros l.
  assert (Hu : SHAPE_UNWEIGHTED (getFlags (after_loop_shape l)) = true)
    by (vm_compute; reflexivity).
  assert (Hr : unweighted_rerun 5 (Data.one_pixel (Exact.q 0))
                 (Exact.q 0) (Exact.q 0) (Exact.q 0) l
               = Ret ((-1)%Z, @zero_sums Exact.arith))
    by (vm_compute; reflexivity).
  destruct (proj1 (@unweighted_fallback Exact.arith Exact.afw 5 (fun _ _ => nan)
                     (Data.one_pixel (Exact.q 0)) (Exact.q 0) (Exact.q 0) (Exact.q 0)
                     l (-1)%Z (@zero_sums Exact.arith) Hu Hr) eq_refl)
    as [shape' [E [Hb [Hn [_ Hk]]]]].
  exists shape'. repeat split; try assumption.
  rewrite (Hk eq_refl). reflexivity.
Defined.

(** ** getAdaptiveMoments: the bound on the rounds of the loop *)

Section LoopBound.

Context {A : Arith} (G : Afw A).
Local Open Scope fp_scope.

Ltac break_match :=
  match goal with
  | |- context [bind ?r _] => destruct r eqn:?
  | |- context [match ?x with _ => _ end] => destruct x eqn:?
  | |- context [if ?x then _ else _] => destruct x eqn:?
  end.

Lemma loop_body_step (fuel : nat) (image : Image A) (bkgd xcen ycen shiftmax : A)
  (l l' : Locals A) (c : bool) :
  loop_body G fuel image bkgd xcen ycen shiftmax l = Ret (c, l') ->
  body_step l l'.
Proof.
  unfold loop_body. cbv zeta.
  destruct (getWeights G (l_sigma11W l) (l_sigma12W l) (l_sigma22W l))
    as [[[[[ok detW] g11] g12] g22]| | | |]; cbn [bind]; try discriminate.
  destruct (negb (fst (ok, detW))).
  { intros H. inversion H; subst. left. simpl. auto. }
  destruct (assert _); cbn [bind]; try discriminate.
  set (latch := getInterp _ _ _ && negb (l_interpflag l)).
  set (redo := latch && (l_iter l >? 0)%Z).
  assert (Hstep : forall l'',
             l_iter l'' = (if redo then (l_iter l - 1)%Z else l_iter l) ->
             l_interpflag l'' = l_interpflag l || latch ->
             body_step l l'').
  { intros l'' Hi Hf. unfold body_step. rewrite Hi, Hf.
    destruct redo eqn:Er.
    - right. unfold redo in Er. apply andb_true_iff in Er. destruct Er as [El Ei].
      rewrite El. unfold latch in El. apply andb_true_iff in El.
      destruct El as [_ El]. apply negb_true_iff in El.
      rewrite orb_true_r. repeat split; auto. lia.
    - left. split; [reflexivity|]. intros ->. reflexivity. }
  destruct (calcmom _ _ _ _ _ _ _ _ _ _ _ _ _) as [[status sums]| | | |];
    cbn [bind]; try discriminate.
  repeat (break_match; cbn [bind]; try discriminate);
    intros H; inversion H; subst; apply Hstep; reflexivity.
Qed.

(** The fuel of the outer loop is not spent by anything the body calls. *)
Lemma bind_not_oof (T U : Type) (r : result T) (k : T -> result U) :
  r <> OutOfFuel -> (forall v, k v <> OutOfFuel) -> bind r k <> OutOfFuel.
Proof.
  intros Hr Hk. destruct r; simpl; try discriminate; auto.
Qed.

Lemma getWeights_not_oof (s11 s12 s22 : A) : getWeights G s11 s12 s22 <> OutOfFuel.
Proof.
  unfold getWeights, assert.
  destruct (isnan s11 || isnan s12 || isnan s22); [discriminate|].
  destruct (isnan _ || (_ <? float_epsilon)).
  - destruct (quad_inverse G _) as [[m00 m10] m11]. discriminate.
  - destruct (_ <=? _); simpl; discriminate.
Qed.

Lemma subgrid_loop_not_oof (T : Type) (body : A -> T -> T) (xh : A) :
  forall fuel X acc, subgrid_loop fuel X xh body acc <> OutOfFuel.
Proof.
  induction fuel as [|n IH]; intros X acc; simpl;
    destruct (X <=? xh); try discriminate. apply IH.
Qed.

Lemma subgrid_rows_not_oof (body : A -> A -> MomentSums A -> MomentSums A)
  (fuelX : nat) (yh xl xh : A) :
  forall fuel Y acc, subgrid_rows fuel fuelX Y yh xl xh body acc <> OutOfFuel.
Proof.
  induction fuel as [|n IH]; intros Y acc; simpl;
    destruct (Y <=? yh); try discriminate.
  apply bind_not_oof; [apply subgrid_loop_not_oof | intros v; apply IH].
Qed.

Lemma for_each_not_oof (T : Type) (body : Z -> T -> result T) :
  (forall k acc, body k acc <> OutOfFuel) ->
  forall l acc, for_each l body acc <> OutOfFuel.
Proof.
  intros Hb. induction l as [|k l IH]; intros acc; simpl; [discriminate|].
  apply bind_not_oof; [apply Hb | intros v; apply IH].
Qed.

Lemma calcmom_not_oof (fuel : nat) (fluxOnly : bool) (image : Image A)
  (xcen ycen : A) (bbox : BoxI) (bkgd : A) (interpflag : bool) (w11 w12 w22 : A)
  (outs : MomentSums A) (want_s4 : bool) :
  calcmom fuel fluxOnly image xcen ycen bbox bkgd interpflag w11 w12 w22 outs want_s4
  <> OutOfFuel.
Proof.
  unfold calcmom. apply bind_not_oof.
  - unfold assert. destruct (_ <=? _); discriminate.
  - intros _. destruct (weights_too_large _ _ _); [discriminate|].
    destruct (box_outside _ _); [discriminate|].
    apply bind_not_oof; [|discriminate].
    unfold accumulate. apply for_each_not_oof. intros i acc.
    apply for_each_not_oof. intros j acc'.
    unfold pixel_step. destruct interpflag; [|discriminate].
    unfold interp_pixel. destruct (_ <=? lit 9); [|discriminate].
    apply subgrid_rows_not_oof.
Qed.

Lemma loop_body_not_oof (fuel : nat) (image : Image A) (bkgd xcen ycen shiftmax : A)
  (l : Locals A) :
  loop_body G fuel image bkgd xcen ycen shiftmax l <> OutOfFuel.
Proof.
  unfold loop_body. cbv zeta.
  apply bind_not_oof; [apply getWeights_not_oof|]. intros [[[[ok detW] g11] g12] g22].
  destruct (negb _); [discriminate|].
  apply bind_not_oof; [unfold assert; destruct (_ <=? _); discriminate|]. intros _.
  apply bind_not_oof; [apply calcmom_not_oof|]. intros [status sums].
  destruct (status <? 0)%Z; [discriminate|].
  destruct (_ || _); [discriminate|].
  destruct (_ && _); [discriminate|].
  apply bind_not_oof; [apply getWeights_not_oof|]. intros [[[ok1 o11] o12] o22].
  destruct (negb _); [discriminate|].
  apply bind_not_oof; [apply getWeights_not_oof|]. intros [[[ok2 s11] s12] s22].
  destruct (negb _); [discriminate|].
  destruct (_ || _); discriminate.
Qed.

Lemma adaptive_loop_bound (fuel : nat) (image : Image A) (bkgd xcen ycen shiftmax : A) :
  forall (outer : nat) (l : Locals A) (rounds redos : nat),
    (0 <= l_iter l <= MAXIT)%Z ->
    (rounds_left l <= Z.of_nat outer)%Z ->
    (Z.of_nat rounds <= l_iter l)%Z ->
    (redos <= (if l_interpflag l then 1 else 0))%nat ->
    adaptive_loop G outer fuel image bkgd xcen ycen shiftmax rounds redos l
    <> OutOfFuel /\
    forall n m l',
      adaptive_loop G outer fuel image bkgd xcen ycen shiftmax rounds redos l
      = Ret (n, m, l') ->
      (Z.of_nat n <= MAXIT)%Z /\
      (m <= (if l_interpflag l' then 1 else 0))%nat /\
      (0 <= l_iter l' <= MAXIT)%Z.
Proof.
  unfold rounds_left.
  induction outer as [|outer IH]; intros l rounds redos Hi Hm Hr Hd.
  - cbn [adaptive_loop]. destruct (Z.ltb_spec (l_iter l) MAXIT) as [Hlt|Hge].
    + unfold MAXIT in *. destruct (l_interpflag l); lia.
    + split; [discriminate|]. intros n m l' [= <- <- <-]. lia.
  - cbn [adaptive_loop]. destruct (Z.ltb_spec (l_iter l) MAXIT) as [Hlt|Hge].
    2:{ split; [discriminate|]. intros n m l' [= <- <- <-]. lia. }
    destruct (loop_body G fuel image bkgd xcen ycen shiftmax l) as [[c l1]| | | |] eqn:E;
      cbn [bind]; try (split; [discriminate | intros n m l'; discriminate]).
    2:{ exfalso. exact (loop_body_not_oof _ _ _ _ _ _ _ E). }
    pose proof (loop_body_step _ _ _ _ _ _ _ E) as Hs. unfold body_step in Hs.
    cbv zeta.
    destruct Hs as [[H1 H2]|[H1 [H2 [H3 H4]]]].
    + (* an ordinary round *)
      assert (Hn : (l_iter l1 <? l_iter l)%Z = false) by (apply Z.ltb_ge; lia).
      rewrite Hn.
      assert (Hf : (redos <= (if l_interpflag l1 then 1 else 0))%nat).
      { destruct (l_interpflag l); [rewrite (H2 eq_refl); exact Hd|].
        destruct (l_interpflag l1); lia. }
      destruct c.
      * apply IH; cbn [l_iter l_interpflag]; try lia.
        destruct (l_interpflag l); [rewrite (H2 eq_refl); lia|].
        destruct (l_interpflag l1); lia.
      * split; [discriminate|]. intros n m l' [= <- <- <-]. lia.
    + (* the redone round *)
      assert (Hn : (l_iter l1 <? l_iter l)%Z = true) by (apply Z.ltb_lt; lia).
      rewrite Hn. rewrite H3 in Hd, Hm.
      destruct c.
      * apply IH; cbn [l_iter l_interpflag]; rewrite ?H4; lia.
      * split; [discriminate|]. intros n m l' [= <- <- <-]. rewrite H4. lia.
Qed.

Lemma finish_not_oof (fuel : nat) (uninit : Matrix4 A) (image : Image A)
  (bkgd xcen ycen : A) (l : Locals A) :
  finish G fuel uninit image bkgd xcen ycen l <> OutOfFuel.
Proof.
  assert (Hrep : forall ampW shape sums s11 s12 s22,
             report G uninit image xcen ycen ampW shape sums s11 s12 s22 <> OutOfFuel).
  { intros. unfold report. cbv zeta.
    destruct (negb _); [|discriminate].
    destruct (_ && _ && _ && _); [|discriminate].
    destruct (_ && _); [|discriminate].
    apply bind_not_oof; [|discriminate].
    unfold calc_fisher. cbv zeta.
    destruct (_ <=? double_epsilon); [discriminate|].
    destruct (_ <=? lit 0); discriminate. }
  unfold finish. cbv zeta. destruct (SHAPE_UNWEIGHTED _); [|apply Hrep].
  apply bind_not_oof; [apply calcmom_not_oof|]. intros [status sums].
  destruct (_ || _); [discriminate|apply Hrep].
Qed.

(** C5. With fuel for 101 executions of the body the loop never runs
    out.  It makes at most 100 rounds; the only other execution of the
    body is the round redone when interpolation is latched, which
    happens at most once; [iter] never passes 100.  When the loop ends
    with iter = 100, both MAXITER and UNWEIGHTED are set and the answer
    comes from the unweighted rerun. *)
Theorem adaptive_loop_at_most_MAXIT (k fuel : nat) (sums0 : MomentSums A)
  (uninit : Matrix4 A) (image : Image A) (bkgd xcen ycen shiftmax : A) (shape : Shape A) :
  let r := adaptive_loop G (101 + k) fuel image bkgd xcen ycen shiftmax 0 0
             (initial_locals shape sums0) in
  r <> OutOfFuel /\
  getAdaptiveMoments G (101 + k) fuel sums0 uninit image bkgd xcen ycen shiftmax shape
  <> OutOfFuel /\
  forall rounds redos l,
    r = Ret (rounds, redos, l) ->
    (rounds <= 100)%nat /\
    (redos <= 1)%nat /\
    (l_interpflag l = false -> redos = 0%nat) /\
    (l_iter l <= MAXIT)%Z /\
    (l_iter l = MAXIT ->
     SHAPE_MAXITER (getFlags (after_loop_shape l)) = true /\
     SHAPE_UNWEIGHTED (getFlags (after_loop_shape l)) = true /\
     finish G fuel uninit image bkgd xcen ycen l
     = (rr <- unweighted_rerun fuel image bkgd xcen ycen l ;;
        if (fst rr <? 0)%Z || (sum (snd rr) <=? lit 0)
        then Ret (false, unweighted_bad (after_loop_shape l) (snd rr))
        else report G uninit image xcen ycen (l_ampW l) (after_loop_shape l) (snd rr)
               (sumxx (snd rr) / sum (snd rr)) (sumxy (snd rr) / sum (snd rr))
               (sumyy (snd rr) / sum (snd rr)))).
Proof.
  intros r.
  destruct (@adaptive_loop_bound fuel image bkgd xcen ycen shiftmax
              (101 + k) (initial_locals shape sums0) 0%nat 0%nat) as [Hoof Hret].
  { simpl. unfold MAXIT. lia. }
  { unfold rounds_left, MAXIT. simpl l_iter. simpl l_interpflag. lia. }
  { simpl. lia. }
  { simpl. lia. }
  split; [exact Hoof|]. split.
  - unfold getAdaptiveMoments. destruct (_ || _); [discriminate|].
    apply bind_not_oof; [exact Hoof|]. intros v. apply finish_not_oof.
  - intros n m l E. destruct (Hret n m l E) as [Hn [Hd Hi]].
    split; [unfold MAXIT in Hn; lia|].
    split; [destruct (l_interpflag l); lia|].
    split; [intros Hf; rewrite Hf in Hd; lia|].
    split; [lia|]. intros Hcap.
    assert (Hf : SHAPE_MAXITER (getFlags (after_loop_shape l)) = true /\
                 SHAPE_UNWEIGHTED (getFlags (after_loop_shape l)) = true).
    { unfold after_loop_shape. rewrite Hcap. simpl.
      destruct (eqb _ _); simpl; auto. }
    destruct Hf as [Hf1 Hf2]. split; [exact Hf1|]. split; [exact Hf2|].
    unfold finish. cbv zeta. rewrite Hf2.
    destruct (unweighted_rerun fuel image bkgd xcen ycen l) as [[status sums]| | | |];
      reflexivity.
Qed.

End LoopBound.

(** The bound on the one-pixel image of value 0: the loop returns after
    one execution of its body. *)
Lemma adaptive_loop_at_most_MAXIT_witness :
  adaptive_loop Exact.afw 101 5 (Data.one_pixel (Exact.q 0))
    (Exact.q 0) (Exact.q 0) (Exact.q 0) (Exact.q 1) 0 0
    (initial_locals (Data.shape_of nan nan nan) Data.no_sums) <> OutOfFuel.
Proof.
  exact (proj1 (@adaptive_loop_at_most_MAXIT Exact.arith Exact.afw 0 5 Data.no_sums
                  (fun _ _ => nan) (Data.one_pixel (Exact.q 0))
                  (Exact.q 0) (Exact.q 0) (Exact.q 0) (Exact.q 1)
                  (Data.shape_of nan nan nan))).
Defined.

(** ** getWeights on a singular covariance *)

Module ExactRegFacts.
Import Exact ExactFacts.

#[local] Arguments Qred : simpl never.
#[local] Arguments Qplus : simpl never.
#[local] Arguments Qminus : simpl never.
#[local] Arguments Qmult : simpl never.
#[local] Arguments Qdiv : simpl never.
#[local] Arguments Qopp : simpl never.
#[local] Arguments Qfloor : simpl never.
#[local] Arguments Z.sqrt : simpl never.

Lemma reg_laws : RegLaws arith.
Proof.
  constructor; simpl.
  - intros [x|]; simpl; [|discriminate]. intros _.
    apply Qle_bool_iff. rewrite !Qred_correct. nra.
  - intros [x|]; [|discriminate]. intros H.
    change (Qle_bool (Qred 0) x = true) in H.
    change (Qle_bool (1 # 12) (Qred (x + (1 # 12))) = true).
    apply Qle_bool_iff in H. apply Qle_bool_iff.
    rewrite Qred_correct in *. lra.
  - intros [x|] [y|]; simpl; try discriminate. intros H0 H.
    apply Qle_bool_iff in H0, H. rewrite Qred_correct in H0.
    assert (Hx : Qltb x 0 = false) by (apply Qltb_false; exact H0).
    assert (Hy : Qltb y 0 = false) by (apply Qltb_false; lra).
    rewrite Hx, Hy. simpl. apply Qle_bool_iff. rewrite !Qred_correct.
    unfold Qle. simpl. apply Z.mul_le_mono_nonneg_r; [lia|].
    apply Z.sqrt_le_mono. apply Qfloor_resp_le. nra.
  - vm_compute. reflexivity.
  - vm_compute. reflexivity.
  - intros [a|] [b|] [c|]; simpl; try discriminate. intros H1 H2.
    apply Qltb_lt in H1. apply Qle_bool_iff in H2. apply Qltb_lt. lra.
Qed.

End ExactRegFacts.

Section Degenerate.

Context {A : Arith} (G : Afw A) (R : RegLaws A).
Local Open Scope fp_scope.


End Degenerate.


(** At (0, 0, 0), with the conversion formulas of the library evaluated
    on the exact arithmetic, the weights returned are positive. *)
Lemma getWeights_zero_positive :
  match getWeights Exact.afw (Exact.q 0) (Exact.q 0) (Exact.q 0) with
  | Ret (ok, _, w11, w12, w22) =>
      ok && ltb (lit 0) w11 && eqb w12 (lit 0) && ltb (lit 0) w22
  | _ => false
  end = true.
Proof. vm_compute. reflexivity. Qed.


(** ** Further properties of the code *)

(** *** The two copies agree *)

Lemma zrange_In (lo hi k : Z) : In k (zrange lo hi) <-> (lo <= k <= hi)%Z.
Proof.
  unfold zrange. rewrite in_map_iff. split.
  - intros [n [E Hn]]. apply in_seq in Hn. lia.
  - intros H. exists (Z.to_nat (k - lo)). split; [lia|].
    apply in_seq. lia.
Qed.

Lemma zrange_empty (lo hi : Z) : (hi < lo)%Z -> zrange lo hi = [].
Proof.
  intros H. unfold zrange. replace (Z.to_nat (hi - lo + 1)) with 0%nat by lia.
  reflexivity.
Qed.

Lemma zrange_cons (lo hi : Z) : (lo <= hi)%Z -> zrange lo hi = lo :: zrange (lo + 1) hi.
Proof.
  intros H. unfold zrange.
  replace (Z.to_nat (hi - lo + 1)) with (S (Z.to_nat (hi - (lo + 1) + 1))) by lia.
  simpl. f_equal; [lia|].
  rewrite <- seq_shift, map_map. apply map_ext. intros k. lia.
Qed.

Lemma for_each_ext (T : Type) (f g : Z -> T -> result T) (l : list Z) :
  (forall k acc, In k l -> f k acc = g k acc) ->
  forall acc, for_each l f acc = for_each l g acc.
Proof.
  induction l as [|k l IH]; intros H acc; simpl; [reflexivity|].
  rewrite (H k acc (or_introl eq_refl)).
  destruct (g k acc); simpl; try reflexivity.
  apply IH. intros k' a Hk. apply H. right. exact Hk.
Qed.

Section Overloads.

Context {A : Arith} (G : Afw A).
Local Open Scope fp_scope.

(** The overload of set_amom_bbox without [maxRad] returns the box of
    the other one at its default maximum radius 1000. *)
Theorem set_amom_bbox_overload (width height : Z)
  (xcen ycen sigma11_w sigma12_w sigma22_w : A) :
  Overload.set_amom_bbox G width height xcen ycen sigma11_w sigma12_w sigma22_w
  = set_amom_bbox G width height xcen ycen sigma11_w sigma12_w sigma22_w default_maxRad.
Proof. reflexivity. Qed.

(** The calcmom without the [fluxOnly] parameter returns the status and
    leaves the sums of calcmom<false>, on every input. *)
Theorem calcmom_overload (fuel : nat) (image : Image A) (xcen ycen : A)
  (bbox : BoxI) (bkgd : A) (interpflag : bool) (w11 w12 w22 : A)
  (outs : MomentSums A) (want_s4 : bool) :
  Overload.calcmom fuel image xcen ycen bbox bkgd interpflag w11 w12 w22 outs want_s4
  = calcmom fuel false image xcen ycen bbox bkgd interpflag w11 w12 w22 outs want_s4.
Proof.
  assert (E : for_each (zrange (getMinY bbox) (getMaxY bbox))
                (fun i s =>
                   for_each (zrange (getMinX bbox) (getMaxX bbox))
                     (Overload.pixel_step fuel interpflag image xcen ycen bkgd
                        w11 w12 w22 i) s)
                zero_sums
              = accumulate fuel false interpflag image xcen ycen bbox bkgd w11 w12 w22).
  { unfold accumulate. apply for_each_ext. intros i acc _.
    apply for_each_ext. intros j acc' _.
    unfold Overload.pixel_step, pixel_step. destruct interpflag; [reflexivity|].
    unfold plain_pixel. cbv zeta. destruct (_ <=? lit 14); reflexivity. }
  unfold Overload.calcmom, calcmom, weights_too_large, box_outside.
  cbv zeta. rewrite E. reflexivity.
Qed.

End Overloads.

(** *** calcmom reads the box and nothing else *)

Section Locality.

Context {A : Arith}.
Local Open Scope fp_scope.

(** Two images of the same size that agree on the pixels of the box
    give the same status and the same sums: calcmom reads no pixel
    outside the box. *)
Theorem calcmom_reads_box_only (fuel : nat) (fluxOnly : bool) (image image' : Image A)
  (xcen ycen : A) (bbox : BoxI) (bkgd : A) (interpflag : bool) (w11 w12 w22 : A)
  (outs : MomentSums A) (want_s4 : bool) :
  getWidth image = getWidth image' ->
  getHeight image = getHeight image' ->
  (forall i j, (getMinY bbox <= i <= getMaxY bbox)%Z ->
               (getMinX bbox <= j <= getMaxX bbox)%Z ->
               pixel image j i = pixel image' j i) ->
  calcmom fuel fluxOnly image xcen ycen bbox bkgd interpflag w11 w12 w22 outs want_s4
  = calcmom fuel fluxOnly image' xcen ycen bbox bkgd interpflag w11 w12 w22 outs want_s4.
Proof.
  intros Hw Hh Hp. unfold calcmom, box_outside. rewrite Hw, Hh.
  assert (E : accumulate fuel fluxOnly interpflag image xcen ycen bbox bkgd w11 w12 w22
              = accumulate fuel fluxOnly interpflag image' xcen ycen bbox bkgd w11 w12 w22).
  { unfold accumulate. apply for_each_ext. intros i acc Hi.
    apply for_each_ext. intros j acc' Hj.
    apply zrange_In in Hi. apply zrange_In in Hj.
    unfold pixel_step, interp_pixel, plain_pixel. rewrite (Hp i j Hi Hj). reflexivity. }
  rewrite E. reflexivity.
Qed.

End Locality.

(** A 2 x 2 image that differs from the constant image 1 at pixel
    (1, 1) only; the box is the pixel (0, 0). *)
Lemma calcmom_reads_box_only_witness :
  let image := MkImage 2 2 (fun _ _ => Exact.q 1) (fun _ _ => nan) in
  let image' := MkImage 2 2
                  (fun j i => if ((j =? 1) && (i =? 1))%Z then Exact.q 7 else Exact.q 1)
                  (fun _ _ => nan) in
  calcmom 5 false image (Exact.q 0) (Exact.q 0) Data.pixel_box (Exact.q 0) false
    (Exact.q 1) (Exact.q 0) (Exact.q 1) Data.no_sums true
  = calcmom 5 false image' (Exact.q 0) (Exact.q 0) Data.pixel_box (Exact.q 0) false
      (Exact.q 1) (Exact.q 0) (Exact.q 1) Data.no_sums true.
Proof.
  intros image image'.
  apply (@calcmom_reads_box_only Exact.arith 5 false image image');
    [reflexivity | reflexivity |].
  intros i j Hi Hj. simpl in Hi, Hj.
  assert (i = 0%Z) by lia. assert (j = 0%Z) by lia. subst. reflexivity.
Defined.

(** *** calcmom on an empty image and on an empty box *)

Section EmptyInput.

Context {A : Arith} (L : ArithLaws A).
Local Open Scope fp_scope.

Lemma zero_not_positive : (lit 0 <? (lit 0 : A)) = false.
Proof.
  apply (leb_not_ltb L). apply (lit_leb L). apply Qle_refl.
Qed.

Lemma for_each_skip (T : Type) (l : list Z) (acc : T) :
  for_each l (fun _ s => Ret s) acc = Ret acc.
Proof.
  induction l as [|k l IH]; simpl; [reflexivity | exact IH].
Qed.

(** On an image without columns or without rows every box with
    min <= max is rejected: calcmom returns -1 and writes nothing. *)
Theorem calcmom_empty_image (fuel : nat) (fluxOnly : bool) (image : Image A)
  (xcen ycen : A) (bbox : BoxI) (bkgd : A) (interpflag : bool) (w11 w12 w22 : A)
  (outs : MomentSums A) (want_s4 : bool) :
  (getWidth image <= 0 \/ getHeight image <= 0)%Z ->
  (getMinX bbox <= getMaxX bbox)%Z ->
  (getMinY bbox <= getMaxY bbox)%Z ->
  (lit 0 <=? w11) = true ->
  calcmom fuel fluxOnly image xcen ycen bbox bkgd interpflag w11 w12 w22 outs want_s4
  = Ret ((-1)%Z, outs).
Proof.
  intros He Hx Hy Hw. unfold calcmom. rewrite Hw. simpl.
  destruct (weights_too_large w11 w12 w22); [reflexivity|].
  assert (Hb : box_outside image bbox = true).
  { unfold box_outside. repeat rewrite orb_true_iff.
    rewrite Z.ltb_lt, Z.geb_le, Z.ltb_lt, Z.geb_le. lia. }
  rewrite Hb. reflexivity.
Qed.

(** On an empty box (max < min in one direction) that is not outside
    the image the loops do not run: the sums written are 0, so the full
    mode fails and the fluxOnly mode succeeds with flux 0. *)
Theorem calcmom_empty_box (fuel : nat) (fluxOnly : bool) (image : Image A)
  (xcen ycen : A) (bbox : BoxI) (bkgd : A) (interpflag : bool) (w11 w12 w22 : A)
  (outs : MomentSums A) (want_s4 : bool) :
  (getMaxX bbox < getMinX bbox \/ getMaxY bbox < getMinY bbox)%Z ->
  (lit 0 <=? w11) = true ->
  weights_too_large w11 w12 w22 = false ->
  box_outside image bbox = false ->
  calcmom fuel fluxOnly image xcen ycen bbox bkgd interpflag w11 w12 w22 outs want_s4
  = Ret (if fluxOnly then 0%Z else (-1)%Z, write_sums fluxOnly want_s4 zero_sums outs).
Proof.
  intros He Hw Hl Hb.
  assert (E : accumulate fuel fluxOnly interpflag image xcen ycen bbox bkgd w11 w12 w22
              = Ret zero_sums).
  { unfold accumulate. destruct He as [He|He].
    - transitivity (for_each (zrange (getMinY bbox) (getMaxY bbox))
                      (fun _ s => Ret s) (@zero_sums A)).
      + apply for_each_ext. intros i acc _. rewrite (@zrange_empty _ _ He). reflexivity.
      + apply for_each_skip.
    - rewrite (@zrange_empty _ _ He). reflexivity. }
  unfold calcmom. rewrite Hw, Hl, Hb, E. simpl.
  rewrite zero_not_positive. destruct fluxOnly; reflexivity.
Qed.

(** getWeights always returns: its assertion cannot fail.  The call
    fails (success = false) exactly when one of the three inputs is
    NaN, and then the determinant and the weights are NaN. *)
Theorem getWeights_total (G : Afw A) (sigma11 sigma12 sigma22 : A) :
  exists ok det w11 w12 w22,
    getWeights G sigma11 sigma12 sigma22 = Ret ((ok, det), w11, w12, w22) /\
    (ok = false <-> isnan sigma11 || isnan sigma12 || isnan sigma22 = true) /\
    (ok = false -> det = nan /\ w11 = nan /\ w12 = nan /\ w22 = nan).
Proof.
  unfold getWeights.
  destruct (isnan sigma11 || isnan sigma12 || isnan sigma22) eqn:En.
  { exists false, nan, nan, nan, nan. repeat split; auto. }
  set (det := sigma11 * sigma22 - sigma12 * sigma12).
  destruct (isnan det) eqn:Ed; simpl.
  { destruct (quad_inverse G _) as [[m00 m10] m11].
    eexists true, _, m00, m10, m11. repeat split; try discriminate. }
  destruct (det <? float_epsilon) eqn:El.
  { destruct (quad_inverse G _) as [[m00 m10] m11].
    eexists true, _, m00, m10, m11. repeat split; try discriminate. }
  assert (He : leb (lit 0) (@float_epsilon A) = true).
  { unfold float_epsilon. apply (lit_leb L). discriminate. }
  assert (Hd : leb float_epsilon det = true).
  { apply (leb_total L); [|exact Ed|exact El].
    apply (leb_not_nan L _ _ He). }
  unfold det in Hd. rewrite (sub_leb L _ _ _ He Hd). simpl.
  eexists true, _, _, _, _. repeat split; try discriminate.
Qed.

End EmptyInput.

(** An image without columns, the box of one pixel. *)
Lemma calcmom_empty_image_witness :
  calcmom 5 false (MkImage 0 3 (fun _ _ => Exact.q 1) (fun _ _ => nan))
    (Exact.q 0) (Exact.q 0) Data.pixel_box (Exact.q 0) false
    (Exact.q 1) (Exact.q 0) (Exact.q 1) Data.no_sums true
  = Ret ((-1)%Z, Data.no_sums).
Proof.
  apply (@calcmom_empty_image Exact.arith); simpl; solve [lia | reflexivity].
Defined.

(** The default-constructed box (min 0, max -1) on a one-pixel image. *)
Lemma calcmom_empty_box_witness :
  calcmom 5 true (Data.one_pixel (Exact.q 1))
    (Exact.q 0) (Exact.q 0) (MkBox 0 0 (-1) (-1)) (Exact.q 0) false
    (Exact.q 1) (Exact.q 0) (Exact.q 1) Data.no_sums false
  = Ret (0%Z, write_sums true false zero_sums Data.no_sums).
Proof.
  apply (@calcmom_empty_box Exact.arith ExactFacts.laws); simpl;
    solve [lia | reflexivity].
Defined.

(** getWeights at (NaN, 0, 1). *)
Lemma getWeights_total_witness :
  exists ok det w11 w12 w22,
    getWeights Exact.afw nan (Exact.q 0) (Exact.q 1) = Ret ((ok, det), w11, w12, w22) /\
    (ok = false <-> true = true) /\
    (ok = false -> det = nan /\ w11 = nan /\ w12 = nan /\ w22 = nan).
Proof.
  exact (@getWeights_total Exact.arith ExactFacts.laws Exact.afw
           nan (Exact.q 0) (Exact.q 1)).
Defined.

(** *** getAdaptiveMoments: what the loop leaves alone *)

Ltac split_match :=
  match goal with
  | |- context [bind ?r _] => destruct r eqn:?
  | |- context [match ?x with _ => _ end] => destruct x eqn:?
  | |- context [if ?x then _ else _] => destruct x eqn:?
  end.

Section LoopShape.

Context {A : Arith} (G : Afw A).
Local Open Scope fp_scope.

Lemma loop_keeps_refl (s : Shape A) : loop_keeps s s.
Proof. unfold loop_keeps. repeat split; auto. Qed.

Lemma loop_keeps_trans (s1 s2 s3 : Shape A) :
  loop_keeps s1 s2 -> loop_keeps s2 s3 -> loop_keeps s1 s3.
Proof.
  unfold loop_keeps. intros H1 H2.
  destruct H1 as (a1 & a2 & a3 & a4 & a5 & a6 & a7 & a8 & a9 & a10).
  destruct H2 as (b1 & b2 & b3 & b4 & b5 & b6 & b7 & b8 & b9 & b10).
  repeat split; try congruence; auto.
Qed.

Lemma loop_body_shape (fuel : nat) (image : Image A) (bkgd xcen ycen shiftmax : A)
  (l l' : Locals A) (c : bool) :
  loop_body G fuel image bkgd xcen ycen shiftmax l = Ret (c, l') ->
  loop_keeps (l_shape l) (l_shape l') /\
  (c = true ->
   SHAPE_UNWEIGHTED (getFlags (l_shape l')) = SHAPE_UNWEIGHTED (getFlags (l_shape l))) /\
  (c = false ->
   SHAPE_UNWEIGHTED (getFlags (l_shape l')) = true \/ (0 < l_iter l')%Z).
Proof.
  unfold loop_body. cbv zeta.
  destruct (getWeights G (l_sigma11W l) (l_sigma12W l) (l_sigma22W l))
    as [[[[[ok detW] g11] g12] g22]| | | |]; cbn [bind]; try discriminate.
  destruct (negb (fst (ok, detW))).
  { intros H. inversion H; subst. unfold loop_keeps. cbn.
    repeat split; auto; discriminate. }
  destruct (assert _); cbn [bind]; try discriminate.
  destruct (calcmom _ _ _ _ _ _ _ _ _ _ _ _ _) as [[status sums]| | | |];
    cbn [bind]; try discriminate.
  repeat (split_match; cbn [bind]; try discriminate);
    intros H; inversion H; subst; clear H; unfold loop_keeps; cbn;
    (repeat split; auto; try discriminate);
    try (intros _; left; reflexivity);
    try (intros _; right;
         match goal with
         | Hc : (_ >? 0)%Z && _ && _ && _ = true |- _ =>
             repeat rewrite andb_true_iff in Hc;
             destruct Hc as [[[Hc _] _] _]; apply Z.gtb_lt in Hc; cbn; lia
         end).
Qed.

Lemma adaptive_loop_keeps (fuel : nat) (image : Image A) (bkgd xcen ycen shiftmax : A) :
  forall (outer : nat) (l : Locals A) (rounds redos n m : nat) (l' : Locals A),
    adaptive_loop G outer fuel image bkgd xcen ycen shiftmax rounds redos l
    = Ret (n, m, l') ->
    loop_keeps (l_shape l) (l_shape l') /\
    (l_interpflag l = true -> l_interpflag l' = true) /\
    (rounds <= n)%nat.
Proof.
  induction outer as [|outer IH]; intros l rounds redos n m l'; cbn [adaptive_loop].
  - destruct (l_iter l <? MAXIT)%Z; [discriminate|].
    intros [= <- <- <-]. split; [apply loop_keeps_refl|]. split; auto.
  - destruct (l_iter l <? MAXIT)%Z.
    2:{ intros [= <- <- <-]. split; [apply loop_keeps_refl|]. split; auto. }
    destruct (loop_body G fuel image bkgd xcen ycen shiftmax l) as [[c l1]| | | |] eqn:E;
      cbn [bind]; try discriminate.
    destruct (loop_body_shape _ _ _ _ _ _ _ E) as [Hk _].
    pose proof (@loop_body_step A G _ _ _ _ _ _ _ _ _ E) as Hs. unfold body_step in Hs.
    assert (Hf : l_interpflag l = true -> l_interpflag l1 = true).
    { destruct Hs as [[_ H2]|[_ [_ [H3 _]]]]; [exact H2 | congruence]. }
    cbv zeta. destruct c.
    + intros H. apply IH in H. cbn [l_shape l_interpflag] in H.
      destruct H as [H1 [H2 H3]].
      split; [eapply loop_keeps_trans; eauto|]. split; [auto|].
      destruct (l_iter l1 <? l_iter l)%Z; lia.
    + intros [= <- <- <-]. split; [exact Hk|]. split; [exact Hf|].
      destruct (l_iter l1 <? l_iter l)%Z; lia.
Qed.

End LoopShape.

(** *** getAdaptiveMoments: the flags and the return value *)

Section Outcome.

Context {A : Arith} (G : Afw A).
Local Open Scope fp_scope.

Lemma report_ret (uninit : Matrix4 A) (image : Image A) (xcen ycen ampW : A)
  (shape : Shape A) (sums : MomentSums A) (s11 s12 s22 : A) (b : bool) (s' : Shape A) :
  report G uninit image xcen ycen ampW shape sums s11 s12 s22 = Ret (b, s') ->
  b = true /\ getFlags s' = getFlags shape /\
  getI0 s' = ampW /\ getIxx s' = s11 /\ getIxy s' = s12 /\ getIyy s' = s22 /\
  getIxy4 s' = sums4 sums / sum sums /\
  (SHAPE_UNWEIGHTED (getFlags shape) = true -> getCovar s' = getCovar shape).
Proof.
  unfold report. cbv zeta.
  repeat (split_match; cbn [bind]; try discriminate);
    intros H; inversion H; subst; clear H; cbn; repeat split; auto.
  intros Hu.
  match goal with
  | Hc : _ && negb _ = true |- _ =>
      apply andb_true_iff in Hc; destruct Hc as [_ Hc]; cbn in Hc;
      rewrite Hu in Hc; discriminate
  end.
Qed.

Lemma after_loop_shape_keeps (l : Locals A) :
  SHAPE_UNWEIGHTED_BAD (getFlags (after_loop_shape l))
  = SHAPE_UNWEIGHTED_BAD (getFlags (l_shape l)) /\
  getCovar (after_loop_shape l) = getCovar (l_shape l) /\
  (SHAPE_MAXITER (getFlags (after_loop_shape l)) = true ->
   SHAPE_MAXITER (getFlags (l_shape l)) = true
   \/ SHAPE_UNWEIGHTED (getFlags (after_loop_shape l)) = true).
Proof.
  unfold after_loop_shape, flag_unweighted.
  destruct (l_iter l =? MAXIT)%Z; destruct (eqb _ _); cbn; auto.
Qed.

Lemma finish_ret (fuel : nat) (uninit : Matrix4 A) (image : Image A)
  (bkgd xcen ycen : A) (l : Locals A) (b : bool) (s' : Shape A) :
  finish G fuel uninit image bkgd xcen ycen l = Ret (b, s') ->
  (b = false /\
   SHAPE_UNWEIGHTED_BAD (getFlags s') = true /\
   SHAPE_UNWEIGHTED (getFlags s') = false /\
   getCovar s' = getCovar (after_loop_shape l))
  \/ (b = true /\
      getFlags s' = getFlags (after_loop_shape l) /\
      (SHAPE_UNWEIGHTED (getFlags (after_loop_shape l)) = true ->
       getCovar s' = getCovar (after_loop_shape l))).
Proof.
  unfold finish. cbv zeta.
  destruct (SHAPE_UNWEIGHTED (getFlags (after_loop_shape l))) eqn:Eu.
  - destruct (unweighted_rerun fuel image bkgd xcen ycen l) as [[status sums]| | | |];
      cbn [bind]; try discriminate.
    destruct (_ || _).
    + intros [= <- <-]. left. unfold unweighted_bad.
      destruct (sum sums >? lit 0); cbn; auto.
    + intros H. apply report_ret in H. right. tauto.
  - intros H. apply report_ret in H. right.
    destruct H as (H1 & H2 & _). repeat split; auto. discriminate.
Qed.

(** The value returned agrees with the flags: provided UNWEIGHTED_BAD
    is clear in the caller's shape, the call returns false exactly when
    it sets UNWEIGHTED_BAD; and a call that gets a shape without
    UNWEIGHTED never returns one with both UNWEIGHTED and
    UNWEIGHTED_BAD. *)
Theorem getAdaptiveMoments_return_flag (outer fuel : nat) (sums0 : MomentSums A)
  (uninit : Matrix4 A) (image : Image A) (bkgd xcen ycen shiftmax : A)
  (shape : Shape A) (b : bool) (s' : Shape A) :
  getAdaptiveMoments G outer fuel sums0 uninit image bkgd xcen ycen shiftmax shape
  = Ret (b, s') ->
  SHAPE_UNWEIGHTED_BAD (getFlags shape) = false ->
  (b = false <-> SHAPE_UNWEIGHTED_BAD (getFlags s') = true) /\
  (SHAPE_UNWEIGHTED (getFlags shape) = false ->
   SHAPE_UNWEIGHTED (getFlags s') = true ->
   SHAPE_UNWEIGHTED_BAD (getFlags s') = false).
Proof.
  unfold getAdaptiveMoments. destruct (isnan xcen || isnan ycen).
  { intros [= <- <-] Hb. cbn. split; [tauto|]. intros Hu. rewrite Hu. discriminate. }
  destruct (adaptive_loop _ _ _ _ _ _ _ _ _ _ _) as [[[n m] l]| | | |] eqn:E;
    cbn [bind]; try discriminate.
  intros H Hb. cbn [snd] in H.
  pose proof E as Hk. apply adaptive_loop_keeps in Hk. destruct Hk as [Hk _].
  destruct Hk as (_ & Hk & _). cbn in Hk.
  destruct (after_loop_shape_keeps l) as (Ha & _).
  apply finish_ret in H. destruct H as [(-> & H1 & H2 & _)|(-> & H1 & _)].
  - split; [tauto|]. intros _ Hu. congruence.
  - rewrite H1, Ha, Hk, Hb. split; [split; discriminate|]. reflexivity.
Qed.

(** MAXITER never comes alone: if the caller's shape does not have it,
    a returned shape with MAXITER also has UNWEIGHTED or
    UNWEIGHTED_BAD. *)
Theorem getAdaptiveMoments_maxiter_flag (outer fuel : nat) (sums0 : MomentSums A)
  (uninit : Matrix4 A) (image : Image A) (bkgd xcen ycen shiftmax : A)
  (shape : Shape A) (b : bool) (s' : Shape A) :
  getAdaptiveMoments G outer fuel sums0 uninit image bkgd xcen ycen shiftmax shape
  = Ret (b, s') ->
  SHAPE_MAXITER (getFlags shape) = false ->
  SHAPE_MAXITER (getFlags s') = false
  \/ SHAPE_UNWEIGHTED (getFlags s') = true
  \/ SHAPE_UNWEIGHTED_BAD (getFlags s') = true.
Proof.
  unfold getAdaptiveMoments. destruct (isnan xcen || isnan ycen).
  { intros [= <- <-] Hm. cbn. auto. }
  destruct (adaptive_loop _ _ _ _ _ _ _ _ _ _ _) as [[[n m] l]| | | |] eqn:E;
    cbn [bind]; try discriminate.
  intros H Hm. cbn [snd] in H.
  pose proof E as Hk. apply adaptive_loop_keeps in Hk. destruct Hk as [Hk _].
  destruct Hk as (Hk & _). cbn in Hk.
  destruct (after_loop_shape_keeps l) as (_ & _ & Ha).
  apply finish_ret in H. destruct H as [(_ & H1 & _)|(_ & H1 & _)]; [auto|].
  rewrite H1.
  destruct (SHAPE_MAXITER (getFlags (after_loop_shape l))); [|auto].
  destruct (Ha eq_refl) as [Ha'|Ha']; [congruence | auto].
Qed.

(** The covariance of the shape is written only by a weighted
    measurement: when the call returns false, or returns a shape with
    UNWEIGHTED, the covariance is the caller's. *)
Theorem getAdaptiveMoments_covariance (outer fuel : nat) (sums0 : MomentSums A)
  (uninit : Matrix4 A) (image : Image A) (bkgd xcen ycen shiftmax : A)
  (shape : Shape A) (b : bool) (s' : Shape A) :
  getAdaptiveMoments G outer fuel sums0 uninit image bkgd xcen ycen shiftmax shape
  = Ret (b, s') ->
  b = false \/ SHAPE_UNWEIGHTED (getFlags s') = true ->
  getCovar s' = getCovar shape.
Proof.
  unfold getAdaptiveMoments. destruct (isnan xcen || isnan ycen).
  { intros [= <- <-] _. reflexivity. }
  destruct (adaptive_loop _ _ _ _ _ _ _ _ _ _ _) as [[[n m] l]| | | |] eqn:E;
    cbn [bind]; try discriminate.
  intros H Hc. cbn [snd] in H.
  pose proof E as Hk. apply adaptive_loop_keeps in Hk. destruct Hk as [Hk _].
  destruct Hk as (_ & _ & _ & _ & _ & _ & _ & _ & _ & Hk). cbn in Hk.
  destruct (after_loop_shape_keeps l) as (_ & Ha & _).
  apply finish_ret in H. destruct H as [(_ & _ & _ & H1)|(-> & H1 & H2)].
  - congruence.
  - destruct Hc as [Hc|Hc]; [discriminate|].
    rewrite H1 in Hc. rewrite (H2 Hc). congruence.
Qed.

End Outcome.

(** The three theorems on the one-pixel image of value 0, where the
    call returns false with UNWEIGHTED_BAD. *)
Lemma zero_image_run :
  getAdaptiveMoments Exact.afw 101 5 Data.no_sums (fun _ _ => nan)
    (Data.one_pixel (Exact.q 0)) (Exact.q 0) (Exact.q 0) (Exact.q 0) (Exact.q 1)
    (Data.shape_of nan nan nan)
  = Ret (false, setFlags (Data.shape_of nan nan nan) (set_UNWEIGHTED_BAD no_flags)).
Proof. vm_compute. reflexivity. Qed.

Lemma getAdaptiveMoments_return_flag_witness :
  (false = false <-> true = true) /\ (false = false -> false = true -> true = false).
Proof.
  exact (@getAdaptiveMoments_return_flag Exact.arith Exact.afw 101 5 Data.no_sums
           (fun _ _ => nan) (Data.one_pixel (Exact.q 0))
           (Exact.q 0) (Exact.q 0) (Exact.q 0) (Exact.q 1) (Data.shape_of nan nan nan)
           false _ zero_image_run eq_refl).
Defined.

Lemma getAdaptiveMoments_maxiter_flag_witness :
  false = false \/ false = true \/ true = true.
Proof.
  exact (@getAdaptiveMoments_maxiter_flag Exact.arith Exact.afw 101 5 Data.no_sums
           (fun _ _ => nan) (Data.one_pixel (Exact.q 0))
           (Exact.q 0) (Exact.q 0) (Exact.q 0) (Exact.q 1) (Data.shape_of nan nan nan)
           false _ zero_image_run eq_refl).
Defined.

Lemma getAdaptiveMoments_covariance_witness :
  getCovar (setFlags (Data.shape_of nan nan nan) (set_UNWEIGHTED_BAD no_flags))
  = getCovar (Data.shape_of nan nan nan).
Proof.
  exact (@getAdaptiveMoments_covariance Exact.arith Exact.afw 101 5 Data.no_sums
           (fun _ _ => nan) (Data.one_pixel (Exact.q 0))
           (Exact.q 0) (Exact.q 0) (Exact.q 0) (Exact.q 1) (Data.shape_of nan nan nan)
           false _ zero_image_run (or_introl eq_refl)).
Defined.

(** *** getAdaptiveMoments: after the fallback, and exceptions *)

Section FallbackDetails.

Context {A : Arith} (G : Afw A).
Local Open Scope fp_scope.

(** A calcmom called with [psums4] NULL leaves the caller's [sums4]. *)
Lemma calcmom_keeps_sums4 (fuel : nat) (fluxOnly : bool) (image : Image A)
  (xcen ycen : A) (bbox : BoxI) (bkgd : A) (interpflag : bool) (w11 w12 w22 : A)
  (outs outs' : MomentSums A) (status : Z) :
  calcmom fuel fluxOnly image xcen ycen bbox bkgd interpflag w11 w12 w22 outs false
  = Ret (status, outs') ->
  sums4 outs' = sums4 outs.
Proof.
  unfold calcmom, assert.
  destruct (w11 >=? lit 0); cbn [bind]; try discriminate.
  destruct (weights_too_large _ _ _); [intros [= _ <-]; reflexivity|].
  destruct (box_outside _ _); [intros [= _ <-]; reflexivity|].
  destruct (accumulate _ _ _ _ _ _ _ _ _ _ _) as [s| | | |]; cbn [bind]; try discriminate.
  intros [= _ <-]. unfold write_sums. destruct fluxOnly; reflexivity.
Qed.

(** After a successful unweighted rerun the moments are the unweighted
    ones, but Ixy4 is the fourth-order sum of the last weighted round
    divided by the unweighted sum, and I0 is the amplitude of the last
    weighted round: the rerun passes NULL for [psums4] and does not
    touch [ampW]. *)
Theorem fallback_keeps_weighted_sums4 (fuel : nat) (uninit : Matrix4 A) (image : Image A)
  (bkgd xcen ycen : A) (l : Locals A) (status : Z) (sums : MomentSums A)
  (s' : Shape A) :
  SHAPE_UNWEIGHTED (getFlags (after_loop_shape l)) = true ->
  unweighted_rerun fuel image bkgd xcen ycen l = Ret (status, sums) ->
  finish G fuel uninit image bkgd xcen ycen l = Ret (true, s') ->
  getIxy4 s' = sums4 (l_sums l) / sum sums /\
  getI0 s' = l_ampW l /\
  getIxx s' = sumxx sums / sum sums.
Proof.
  intros Hu Hr. unfold finish. cbv zeta. rewrite Hu, Hr. cbn [bind].
  destruct (_ || _); [discriminate|].
  intros H. apply report_ret in H.
  destruct H as (_ & _ & H1 & H2 & _ & _ & H3 & _).
  unfold unweighted_rerun in Hr. apply calcmom_keeps_sums4 in Hr.
  rewrite H3, Hr. auto.
Qed.

Lemma bind_not_thrown (T U : Type) (r : result T) (k : T -> result U) :
  r <> Thrown -> (forall v, k v <> Thrown) -> bind r k <> Thrown.
Proof.
  intros Hr Hk. destruct r; simpl; try discriminate; auto.
Qed.

Lemma getWeights_not_thrown (s11 s12 s22 : A) : getWeights G s11 s12 s22 <> Thrown.
Proof.
  unfold getWeights, assert.
  destruct (isnan s11 || isnan s12 || isnan s22); [discriminate|].
  destruct (isnan _ || (_ <? float_epsilon)).
  - destruct (quad_inverse G _) as [[m00 m10] m11]. discriminate.
  - destruct (_ <=? _); simpl; discriminate.
Qed.

Lemma subgrid_loop_not_thrown (T : Type) (body : A -> T -> T) (xh : A) :
  forall fuel X acc, subgrid_loop fuel X xh body acc <> Thrown.
Proof.
  induction fuel as [|n IH]; intros X acc; simpl;
    destruct (X <=? xh); try discriminate. apply IH.
Qed.

Lemma subgrid_rows_not_thrown (body : A -> A -> MomentSums A -> MomentSums A)
  (fuelX : nat) (yh xl xh : A) :
  forall fuel Y acc, subgrid_rows fuel fuelX Y yh xl xh body acc <> Thrown.
Proof.
  induction fuel as [|n IH]; intros Y acc; simpl;
    destruct (Y <=? yh); try discriminate.
  apply bind_not_thrown; [apply subgrid_loop_not_thrown | intros v; apply IH].
Qed.

Lemma for_each_not_thrown (T : Type) (body : Z -> T -> result T) :
  (forall k acc, body k acc <> Thrown) ->
  forall l acc, for_each l body acc <> Thrown.
Proof.
  intros Hb. induction l as [|k l IH]; intros acc; simpl; [discriminate|].
  apply bind_not_thrown; [apply Hb | intros v; apply IH].
Qed.

Lemma calcmom_not_thrown (fuel : nat) (fluxOnly : bool) (image : Image A)
  (xcen ycen : A) (bbox : BoxI) (bkgd : A) (interpflag : bool) (w11 w12 w22 : A)
  (outs : MomentSums A) (want_s4 : bool) :
  calcmom fuel fluxOnly image xcen ycen bbox bkgd interpflag w11 w12 w22 outs want_s4
  <> Thrown.
Proof.
  unfold calcmom. apply bind_not_thrown.
  - unfold assert. destruct (_ <=? _); discriminate.
  - intros _. destruct (weights_too_large _ _ _); [discriminate|].
    destruct (box_outside _ _); [discriminate|].
    apply bind_not_thrown; [|discriminate].
    unfold accumulate. apply for_each_not_thrown. intros i acc.
    apply for_each_not_thrown. intros j acc'.
    unfold pixel_step. destruct interpflag; [|discriminate].
    unfold interp_pixel. destruct (_ <=? lit 9); [|discriminate].
    apply subgrid_rows_not_thrown.
Qed.

Lemma loop_body_not_thrown (fuel : nat) (image : Image A) (bkgd xcen ycen shiftmax : A)
  (l : Locals A) :
  loop_body G fuel image bkgd xcen ycen shiftmax l <> Thrown.
Proof.
  unfold loop_body. cbv zeta.
  apply bind_not_thrown; [apply getWeights_not_thrown|].
  intros [[[[ok detW] g11] g12] g22].
  destruct (negb _); [discriminate|].
  apply bind_not_thrown; [unfold assert; destruct (_ <=? _); discriminate|]. intros _.
  apply bind_not_thrown; [apply calcmom_not_thrown|]. intros [status sums].
  destruct (status <? 0)%Z; [discriminate|].
  destruct (_ || _); [discriminate|].
  destruct (_ && _); [discriminate|].
  apply bind_not_thrown; [apply getWeights_not_thrown|]. intros [[[ok1 o11] o12] o22].
  destruct (negb _); [discriminate|].
  apply bind_not_thrown; [apply getWeights_not_thrown|]. intros [[[ok2 s11] s12] s22].
  destruct (negb _); [discriminate|].
  destruct (_ || _); discriminate.
Qed.

Lemma adaptive_loop_not_thrown (fuel : nat) (image : Image A)
  (bkgd xcen ycen shiftmax : A) :
  forall (outer : nat) (l : Locals A) (rounds redos : nat),
    adaptive_loop G outer fuel image bkgd xcen ycen shiftmax rounds redos l <> Thrown.
Proof.
  induction outer as [|outer IH]; intros l rounds redos; cbn [adaptive_loop];
    destruct (l_iter l <? MAXIT)%Z; try discriminate.
  apply bind_not_thrown; [apply loop_body_not_thrown|]. intros [c l1]. cbv zeta.
  destruct c; [apply IH | discriminate].
Qed.

(** On an image whose variance is nowhere positive - a plain Image,
    whose variance reads NaN - calc_fisher is never called and
    getAdaptiveMoments throws no exception. *)
Theorem getAdaptiveMoments_no_variance_no_throw (outer fuel : nat)
  (sums0 : MomentSums A) (uninit : Matrix4 A) (image : Image A)
  (bkgd xcen ycen shiftmax : A) (shape : Shape A) :
  (forall ix iy, (fl (variance image ix iy) >? lit 0) = false) ->
  getAdaptiveMoments G outer fuel sums0 uninit image bkgd xcen ycen shiftmax shape
  <> Thrown.
Proof.
  intros Hv.
  assert (Hrep : forall ampW sh sums s11 s12 s22,
             report G uninit image xcen ycen ampW sh sums s11 s12 s22 <> Thrown).
  { intros. unfold report. cbv zeta. rewrite Hv. simpl.
    destruct (negb _); [|discriminate].
    destruct (_ && _ && _ && _); discriminate. }
  unfold getAdaptiveMoments. destruct (_ || _); [discriminate|].
  apply bind_not_thrown; [apply adaptive_loop_not_thrown|]. intros r.
  unfold finish. cbv zeta. destruct (SHAPE_UNWEIGHTED _); [|apply Hrep].
  apply bind_not_thrown; [apply calcmom_not_thrown|]. intros [status sums].
  destruct (_ || _); [discriminate | apply Hrep].
Qed.

End FallbackDetails.

Lemma fallback_keeps_weighted_sums4_witness :
  exists s',
    finish Exact.afw 5 (fun _ _ => nan) (Data.one_pixel (Exact.q 1))
      (Exact.q 0) (Exact.q (1 # 2)) (Exact.q (1 # 2)) fallback_locals = Ret (true, s') /\
    getIxy4 s' = Exact.q 5 /\ getI0 s' = Exact.q 3 /\ getIxx s' = Exact.q (1 # 4).
Proof.
  assert (Hu : SHAPE_UNWEIGHTED (getFlags (after_loop_shape fallback_locals)) = true)
    by (vm_compute; reflexivity).
  assert (Hr : unweighted_rerun 5 (Data.one_pixel (Exact.q 1))
                 (Exact.q 0) (Exact.q (1 # 2)) (Exact.q (1 # 2)) fallback_locals
               = Ret (0%Z, MkSums (Exact.q 1) (Exact.q 0) (Exact.q 0)
                             (Exact.q (1 # 4)) (Exact.q (1 # 4)) (Exact.q (1 # 4))
                             (Exact.q 5)))
    by (vm_compute; reflexivity).
  destruct (finish Exact.afw 5 (fun _ _ => nan) (Data.one_pixel (Exact.q 1))
              (Exact.q 0) (Exact.q (1 # 2)) (Exact.q (1 # 2)) fallback_locals)
    as [[[|] s']| | | |] eqn:Hf; try (vm_compute in Hf; discriminate).
  exists s'. split; [reflexivity|].
  destruct (@fallback_keeps_weighted_sums4 Exact.arith Exact.afw 5 (fun _ _ => nan)
              (Data.one_pixel (Exact.q 1)) (Exact.q 0) (Exact.q (1 # 2)) (Exact.q (1 # 2))
              fallback_locals _ _ s' Hu Hr Hf) as (H1 & H2 & H3).
  rewrite H1, H2, H3. repeat split; reflexivity.
Defined.

Lemma getAdaptiveMoments_no_variance_no_throw_witness :
  getAdaptiveMoments Exact.afw 101 5 Data.no_sums (fun _ _ => nan)
    (Data.one_pixel (Exact.q 0)) (Exact.q 0) (Exact.q 0) (Exact.q 0) (Exact.q 1)
    (Data.shape_of nan nan nan) <> Thrown.
Proof.
  apply (@getAdaptiveMoments_no_variance_no_throw Exact.arith Exact.afw).
  intros ix iy. reflexivity.
Defined.

(** *** getAdaptiveMoments: how the rounds go *)

Section Rounds.

Context {A : Arith} (G : Afw A).
Local Open Scope fp_scope.

(** Once interpolation is latched it stays latched, and no further
    round is redone. *)
Theorem adaptive_loop_interp_sticky (fuel : nat) (image : Image A)
  (bkgd xcen ycen shiftmax : A) :
  forall (outer : nat) (l : Locals A) (rounds redos n m : nat) (l' : Locals A),
    adaptive_loop G outer fuel image bkgd xcen ycen shiftmax rounds redos l
    = Ret (n, m, l') ->
    l_interpflag l = true ->
    l_interpflag l' = true /\ m = redos.
Proof.
  induction outer as [|outer IH]; intros l rounds redos n m l'; cbn [adaptive_loop].
  - destruct (l_iter l <? MAXIT)%Z; [discriminate|].
    intros [= <- <- <-]. auto.
  - destruct (l_iter l <? MAXIT)%Z.
    2:{ intros [= <- <- <-]. auto. }
    destruct (loop_body G fuel image bkgd xcen ycen shiftmax l) as [[c l1]| | | |] eqn:E;
      cbn [bind]; try discriminate.
    pose proof (@loop_body_step A G _ _ _ _ _ _ _ _ _ E) as Hs. unfold body_step in Hs.
    intros H Hf.
    destruct Hs as [[H1 H2]|[_ [_ [H3 _]]]]; [|congruence].
    cbv zeta in H.
    assert (Hn : (l_iter l1 <? l_iter l)%Z = false) by (apply Z.ltb_ge; lia).
    rewrite Hn in H. destruct c.
    + apply IH in H; [exact H|]. cbn. auto.
    + injection H as _ <- <-. auto.
Qed.

(** The loop started in a state with [iter] = 1: unless it ends with
    UNWEIGHTED set, it completes one more round at least. *)
Lemma adaptive_loop_from_one (fuel : nat) (image : Image A)
  (bkgd xcen ycen shiftmax : A) :
  forall (outer : nat) (l : Locals A) (rounds redos n m : nat) (l' : Locals A),
    adaptive_loop G outer fuel image bkgd xcen ycen shiftmax rounds redos l
    = Ret (n, m, l') ->
    l_iter l = 1%Z ->
    (S rounds <= n)%nat \/ SHAPE_UNWEIGHTED (getFlags (l_shape l')) = true.
Proof.
  assert (Hone : forall outer l rounds redos n m l',
             adaptive_loop G outer fuel image bkgd xcen ycen shiftmax rounds redos l
             = Ret (n, m, l') ->
             l_iter l = 1%Z -> l_interpflag l = true ->
             (S rounds <= n)%nat \/ SHAPE_UNWEIGHTED (getFlags (l_shape l')) = true).
  { intros outer l rounds redos n m l' H Hi Hf.
    destruct outer as [|outer]; cbn [adaptive_loop] in H; rewrite Hi in H;
      cbn in H; [discriminate|].
    destruct (loop_body G fuel image bkgd xcen ycen shiftmax l) as [[c l1]| | | |] eqn:E;
      cbn [bind] in H; try discriminate.
    pose proof (@loop_body_step A G _ _ _ _ _ _ _ _ _ E) as Hs. unfold body_step in Hs.
    destruct Hs as [[H1 H2]|[_ [_ [H3 _]]]]; [|congruence].
    cbv zeta in H.
    assert (Hn : (l_iter l1 <? l_iter l)%Z = false) by (apply Z.ltb_ge; lia).
    rewrite Hi in Hn. rewrite Hn in H. destruct c.
    - apply adaptive_loop_keeps in H. left. lia.
    - injection H as <- _ _. left. lia. }
  intros outer l rounds redos n m l' H Hi.
  destruct (l_interpflag l) eqn:Hf; [eapply Hone; eauto|].
  destruct outer as [|outer]; cbn [adaptive_loop] in H; rewrite Hi in H;
    cbn in H; [discriminate|].
  destruct (loop_body G fuel image bkgd xcen ycen shiftmax l) as [[c l1]| | | |] eqn:E;
    cbn [bind] in H; try discriminate.
  pose proof (@loop_body_step A G _ _ _ _ _ _ _ _ _ E) as Hs. unfold body_step in Hs.
  pose proof (@loop_body_shape A G _ _ _ _ _ _ _ _ _ E) as (_ & _ & Hb).
  cbv zeta in H. destruct Hs as [[H1 H2]|[H1 [H2 [H3 H4]]]].
  - assert (Hn : (l_iter l1 <? l_iter l)%Z = false) by (apply Z.ltb_ge; lia).
    rewrite Hi in Hn. rewrite Hn in H. destruct c.
    + apply adaptive_loop_keeps in H. left. lia.
    + injection H as <- _ _. left. lia.
  - assert (Hn : (l_iter l1 <? l_iter l)%Z = true) by (apply Z.ltb_lt; lia).
    rewrite Hi in Hn. rewrite Hn in H. destruct c.
    + eapply Hone; [exact H | cbn; lia | cbn; exact H4].
    + injection H as _ _ <-. right.
      destruct (Hb eq_refl) as [Hu|Hu]; [exact Hu | lia].
Qed.

(** A weighted answer takes two rounds: the loop entered from the
    initial state either ends with UNWEIGHTED set or has completed at
    least two rounds, because the convergence test needs the shape
    parameters of an earlier round. *)
Theorem adaptive_loop_two_rounds (outer fuel : nat) (image : Image A)
  (bkgd xcen ycen shiftmax : A) (shape : Shape A) (sums0 : MomentSums A)
  (rounds redos : nat) (l : Locals A) :
  adaptive_loop G outer fuel image bkgd xcen ycen shiftmax 0 0
    (initial_locals shape sums0) = Ret (rounds, redos, l) ->
  (2 <= rounds)%nat \/ SHAPE_UNWEIGHTED (getFlags (l_shape l)) = true.
Proof.
  intros H.
  destruct outer as [|outer]; cbn [adaptive_loop] in H; cbn in H; [discriminate|].
  destruct (loop_body G fuel image bkgd xcen ycen shiftmax (initial_locals shape sums0))
    as [[c l1]| | | |] eqn:E; cbn [bind] in H; try discriminate.
  pose proof (@loop_body_step A G _ _ _ _ _ _ _ _ _ E) as Hs. unfold body_step in Hs.
  pose proof (@loop_body_shape A G _ _ _ _ _ _ _ _ _ E) as (_ & _ & Hb).
  cbn [initial_locals l_iter] in Hs.
  destruct Hs as [[H1 _]|[_ [H2 _]]]; [|lia].
  cbv zeta in H. cbn [initial_locals l_iter] in H.
  assert (Hn : (l_iter l1 <? 0)%Z = false) by (apply Z.ltb_ge; lia).
  rewrite Hn in H. destruct c.
  - apply adaptive_loop_from_one in H; [|cbn; lia]. destruct H as [H|H]; [left; lia|auto].
  - injection H as _ _ <-. right.
    destruct (Hb eq_refl) as [Hu|Hu]; [exact Hu | lia].
Qed.

End Rounds.

(** On the one-pixel image of value 0 the loop ends in its first round,
    with UNWEIGHTED set. *)
Lemma zero_image_loop :
  exists l,
    adaptive_loop Exact.afw 101 5 (Data.one_pixel (Exact.q 0))
      (Exact.q 0) (Exact.q 0) (Exact.q 0) (Exact.q 1) 0 0
      (initial_locals (Data.shape_of nan nan nan) Data.no_sums) = Ret (1%nat, 0%nat, l).
Proof. eexists. vm_compute. reflexivity. Qed.

Lemma adaptive_loop_interp_sticky_witness :
  exists n m l',
    adaptive_loop Exact.afw 101 5 (Data.one_pixel (Exact.q 0))
      (Exact.q 0) (Exact.q 0) (Exact.q 0) (Exact.q 1) 0 0 latched_locals
    = Ret (n, m, l') /\
    l_interpflag l' = true /\ m = 0%nat.
Proof.
  assert (E : exists l',
             adaptive_loop Exact.afw 101 5 (Data.one_pixel (Exact.q 0))
               (Exact.q 0) (Exact.q 0) (Exact.q 0) (Exact.q 1) 0 0 latched_locals
             = Ret (1%nat, 0%nat, l')) by (eexists; vm_compute; reflexivity).
  destruct E as [l' E]. exists 1%nat, 0%nat, l'. split; [exact E|].
  exact (@adaptive_loop_interp_sticky Exact.arith Exact.afw 5
           (Data.one_pixel (Exact.q 0)) (Exact.q 0) (Exact.q 0) (Exact.q 0) (Exact.q 1)
           101 latched_locals 0%nat 0%nat 1%nat 0%nat l' E eq_refl).
Defined.

Lemma adaptive_loop_two_rounds_witness :
  exists l,
    adaptive_loop Exact.afw 101 5 (Data.one_pixel (Exact.q 0))
      (Exact.q 0) (Exact.q 0) (Exact.q 0) (Exact.q 1) 0 0
      (initial_locals (Data.shape_of nan nan nan) Data.no_sums) = Ret (1%nat, 0%nat, l) /\
    ((2 <= 1)%nat \/ SHAPE_UNWEIGHTED (getFlags (l_shape l)) = true).
Proof.
  destruct zero_image_loop as [l E]. exists l. split; [exact E|].
  exact (@adaptive_loop_two_rounds Exact.arith Exact.afw 101 5
           (Data.one_pixel (Exact.q 0)) (Exact.q 0) (Exact.q 0) (Exact.q 0) (Exact.q 1)
           (Data.shape_of nan nan nan) Data.no_sums 1%nat 0%nat l E).
Defined.

(** *** In exact arithmetic: the box of an interior centroid *)

Module ExactBox.
Import Exact ExactFacts.

#[local] Arguments Qred : simpl never.
#[local] Arguments Qplus : simpl never.
#[local] Arguments Qminus : simpl never.
#[local] Arguments Qmult : simpl never.
#[local] Arguments Qfloor : simpl never.
#[local] Arguments Z.sqrt : simpl never.

Lemma xtrunc_nonneg (v : Q) : (0 <= v)%Q -> (0 <= xtrunc (Some v))%Z.
Proof.
  destruct v as [n d]. unfold Qle. simpl. intros H.
  apply Z.quot_pos; lia.
Qed.

Lemma xtrunc_le (v : Q) (n : Z) : (0 <= n)%Z -> (v <= inject_Z n)%Q -> (xtrunc (Some v) <= n)%Z.
Proof.
  destruct v as [p d]. unfold Qle. simpl. intros Hn H.
  destruct (Z.le_gt_cases 0 p) as [Hp|Hp].
  - rewrite Z.quot_div_nonneg by lia.
    apply Z.div_le_upper_bound; lia.
  - assert (p ÷ Z.pos d <= 0)%Z; [|lia].
    rewrite <- (Z.opp_involutive p), Z.quot_opp_l by lia.
    assert (0 <= (- p) ÷ Z.pos d)%Z by (apply Z.quot_pos; lia). lia.
Qed.

Lemma scaled_sqrt_nonneg (m : Q) :
  (0 <= Qred (Qred 4 * Qred (Z.sqrt (Qfloor (m * 1000000000000)) # 1000000)))%Q.
Proof.
  rewrite !Qred_correct.
  assert (0 <= Z.sqrt (Qfloor (m * 1000000000000)) # 1000000)%Q.
  { unfold Qle. simpl. pose proof (Z.sqrt_nonneg (Qfloor (m * 1000000000000))). lia. }
  nra.
Qed.

Lemma amom_rad_nonneg (a b : Q) :
  (0 <= a)%Q -> (0 <= b)%Q ->
  exists r, amom_rad (A := arith) (Some a) (Some b) default_maxRad = Some r /\ (0 <= r)%Q.
Proof.
  intros Ha Hb. unfold amom_rad, default_maxRad. simpl.
  assert (Hla : Qltb a 0 = false) by (apply Qltb_false; exact Ha).
  assert (Hlb : Qltb b 0 = false) by (apply Qltb_false; exact Hb).
  destruct (Qltb b a); unfold xsqrt; rewrite ?Hla, ?Hlb;
    match goal with
    | |- context [Qltb (Qred 1000) ?r] =>
        destruct (Qltb (Qred 1000) r);
        (eexists; split; [reflexivity|]);
        [rewrite Qred_correct; discriminate | apply scaled_sqrt_nonneg]
    end.
Qed.

(** In exact arithmetic: for a centroid inside the image and
    non-negative sigma11 and sigma22, the box of set_amom_bbox passes
    the bounds test of calcmom. *)
Theorem bbox_inside_image (image : Image arith) (x y a b : Q) (s12 : arith) :
  (0 <= x <= inject_Z (getWidth image - 1))%Q ->
  (0 <= y <= inject_Z (getHeight image - 1))%Q ->
  (0 <= a)%Q -> (0 <= b)%Q ->
  box_outside image
    (set_amom_bbox afw (getWidth image) (getHeight image) (Some x) (Some y)
       (Some a) s12 (Some b) default_maxRad) = false.
Proof.
  intros [Hx0 Hx1] [Hy0 Hy1] Ha Hb. unfold box_outside.
  set (w := getWidth image) in *. set (h := getHeight image) in *.
  assert (Hw : (0 <= w - 1)%Z).
  { rewrite Zle_Qle. apply Qle_trans with x; assumption. }
  assert (Hh : (0 <= h - 1)%Z).
  { rewrite Zle_Qle. apply Qle_trans with y; assumption. }
  destruct (@amom_rad_nonneg a b Ha Hb) as [r [Er Hr]].
  unfold set_amom_bbox, amom_corners. rewrite Er.
  cbn [fl add sub lit arith lift2 F to_int].
  set (lx := xtrunc (Some (Qred (Qred (x - r) - Qred (1 # 2))))).
  set (ly := xtrunc (Some (Qred (Qred (y - r) - Qred (1 # 2))))).
  set (ux := xtrunc (Some (Qred (Qred (x + r) + Qred (1 # 2))))).
  set (uy := xtrunc (Some (Qred (Qred (y + r) + Qred (1 # 2))))).
  assert (Hlx : (lx <= w - 1)%Z).
  { apply xtrunc_le; [exact Hw|]. rewrite !Qred_correct. lra. }
  assert (Hly : (ly <= h - 1)%Z).
  { apply xtrunc_le; [exact Hh|]. rewrite !Qred_correct. lra. }
  assert (Hux : (0 <= ux)%Z).
  { apply xtrunc_nonneg. rewrite !Qred_correct. lra. }
  assert (Huy : (0 <= uy)%Z).
  { apply xtrunc_nonneg. rewrite !Qred_correct. lra. }
  clearbody lx ly ux uy w h. clear Hx0 Hx1 Hy0 Hy1 Ha Hb Hr Er.
  cbn [box_of_corners afw x_box_of_corners getMinX getMinY getMaxX getMaxY fst snd].
  repeat rewrite orb_false_iff.
  rewrite !Z.ltb_ge, !Z.geb_leb, !Z.leb_gt.
  repeat match goal with
         | |- context [if ?c then _ else _] => destruct c eqn:?
         end;
    repeat match goal with
           | H : (_ <? _)%Z = true |- _ => apply Z.ltb_lt in H
           | H : (_ <? _)%Z = false |- _ => apply Z.ltb_ge in H
           | H : (_ <=? _)%Z = true |- _ => apply Z.leb_le in H
           | H : (_ <=? _)%Z = false |- _ => apply Z.leb_gt in H
           end;
    lia.
Qed.

End ExactBox.

(** A 10 x 10 image, the centroid at (4.5, 9), sigma11 = 2 and
    sigma22 = 3. *)
Lemma bbox_inside_image_witness :
  box_outside (MkImage 10 10 (fun _ _ => Exact.q 1) (fun _ _ => nan))
    (set_amom_bbox Exact.afw 10 10 (Some (9 # 2)) (Some 9%Q)
       (Some 2%Q) (Exact.q 0) (Some 3%Q) default_maxRad) = false.
Proof.
  apply (@ExactBox.bbox_inside_image
           (MkImage 10 10 (fun _ _ => Exact.q 1) (fun _ _ => nan))
           (9 # 2) 9 2 3 (Exact.q 0));
    try split; unfold Qle; simpl; lia.
Defined.

(** *** getFixedMomentsFlux on concrete inputs

    A NaN second moment; a one-pixel image of value -1 with the
    covariance (1, 0, 1). *)
Lemma getFixedMomentsFlux_weights_fail_witness :
  getFixedMomentsFlux Exact.afw 5 (Data.one_pixel (Exact.q 1))
    (Exact.q 0) (Exact.q 0) (Exact.q 0)
    (Data.shape_of nan (Exact.q 0) (Exact.q 1))
  = Ret (nan, nan).
Proof.
  apply (@getFixedMomentsFlux_weights_fail Exact.arith Exact.afw 5
           (Data.one_pixel (Exact.q 1)) (Exact.q 0) (Exact.q 0) (Exact.q 0)
           (Data.shape_of nan (Exact.q 0) (Exact.q 1))).
  reflexivity.
Defined.

Lemma getFixedMomentsFlux_error_nan_witness :
  getFixedMomentsFlux Exact.afw 5 (Data.one_pixel (Exact.q (-1)))
    (Exact.q 0) (Exact.q 0) (Exact.q 0)
    (Data.shape_of (Exact.q 1) (Exact.q 0) (Exact.q 1))
  = Ret (Exact.q (-1), nan) /\ (nan : Exact.arith) = nan.
Proof.
  assert (E : getFixedMomentsFlux Exact.afw 5 (Data.one_pixel (Exact.q (-1)))
                (Exact.q 0) (Exact.q 0) (Exact.q 0)
                (Data.shape_of (Exact.q 1) (Exact.q 0) (Exact.q 1))
              = Ret (Exact.q (-1), nan)) by (vm_compute; reflexivity).
  split; [exact E|].
  exact (@getFixedMomentsFlux_error_nan Exact.arith Exact.afw 5
           (Data.one_pixel (Exact.q (-1))) (Exact.q 0) (Exact.q 0) (Exact.q 0)
           (Data.shape_of (Exact.q 1) (Exact.q 0) (Exact.q 1)) (Exact.q (-1)) nan E).
Defined.

Lemma getFixedMomentsFlux_returns_sum_witness :
  exists s,
    accumulate 5 true
      (getInterp (A := Exact.arith) (Exact.q 1) (Exact.q 1) (Exact.q 1))
      (Data.one_pixel (Exact.q (-1))) (fl (Exact.q 0)) (fl (Exact.q 0))
      (set_amom_bbox Exact.afw 1 1 (fl (Exact.q 0)) (fl (Exact.q 0))
         (Exact.q 1) (Exact.q 0) (Exact.q 1) default_maxRad)
      (fl (Exact.q 0)) (Exact.q 1) (Exact.q 0) (Exact.q 1)
    = Ret s /\
    getFixedMomentsFlux Exact.afw 5 (Data.one_pixel (Exact.q (-1)))
      (Exact.q 0) (Exact.q 0) (Exact.q 0)
      (Data.shape_of (Exact.q 1) (Exact.q 0) (Exact.q 1))
    = Ret (sum s, nan).
Proof.
  destruct (@getFixedMomentsFlux_returns_sum Exact.arith Exact.afw ExactFacts.laws 5
              (Data.one_pixel (Exact.q (-1))) (Exact.q 0) (Exact.q 0) (Exact.q 0)
              (Data.shape_of (Exact.q 1) (Exact.q 0) (Exact.q 1))
              (Exact.q 1) (Exact.q 1) (Exact.q 0) (Exact.q 1)
              eq_refl eq_refl eq_refl eq_refl eq_refl eq_refl)
    as [[H _]|[s [Es Hr]]]; [discriminate H|].
  exists s. split; [exact Es|]. apply Hr. apply le_n.
Defined.

(** *** A sub-pixel loop that does not end *)

Section Absorbed.

Context {A : Arith}.
Local Open Scope fp_scope.

(** A counter that [+= 0.25] leaves unchanged never passes its limit. *)
Lemma subgrid_loop_stuck (T : Type) (body : A -> T -> T) (X xh : A) :
  fl (X + lit (1 # 4)) = X -> (X <=? xh) = true ->
  forall fuel acc, subgrid_loop fuel X xh body acc = SubgridOutOfFuel.
Proof.
  intros Hs Hle. induction fuel as [|n IH]; intros acc; simpl; rewrite Hle.
  - reflexivity.
  - rewrite Hs. apply IH.
Qed.

Lemma interp_pixel_stuck (fuel : nat) (fluxOnly : bool) (image : Image A)
  (xcen ycen bkgd w11 w12 w22 : A) (i j : Z) (s : MomentSums A) :
  let y := fl (of_int i - ycen) in
  let yl := fl (y - lit (3 # 8)) in
  let yh := fl (y + lit (3 # 8)) in
  let x := fl (of_int j - xcen) in
  let xl := fl (x - lit (3 # 8)) in
  let xh := fl (x + lit (3 # 8)) in
  (cell_expon xl xh yl yh w11 w12 w22 <=? lit 9) = true ->
  (yl <=? yh) = true -> (xl <=? xh) = true ->
  fl (xl + lit (1 # 4)) = xl ->
  interp_pixel fuel fluxOnly image xcen ycen bkgd w11 w12 w22 i j s = SubgridOutOfFuel.
Proof.
  intros y yl yh x xl xh He Hy Hx Hs. unfold interp_pixel.
  fold y. fold yl. fold yh. fold x. fold xl. fold xh. rewrite He.
  destruct fuel as [|n]; cbn [subgrid_rows]; rewrite Hy; [reflexivity|].
  rewrite (subgrid_loop_stuck _ _ Hs Hx). reflexivity.
Qed.

(** If, at the first pixel of the box, the cell is not skipped and the
    column counter of its sub-grid is absorbed - [X + 0.25] rounds back
    to [X] - then the interpolated calcmom does not return: whatever
    the fuel, the sub-pixel loop has not finished. *)
Theorem calcmom_absorbed_counter (fuel : nat) (fluxOnly : bool) (image : Image A)
  (xcen ycen : A) (bbox : BoxI) (bkgd w11 w12 w22 : A)
  (outs : MomentSums A) (want_s4 : bool) :
  let y := fl (of_int (getMinY bbox) - ycen) in
  let yl := fl (y - lit (3 # 8)) in
  let yh := fl (y + lit (3 # 8)) in
  let x := fl (of_int (getMinX bbox) - xcen) in
  let xl := fl (x - lit (3 # 8)) in
  let xh := fl (x + lit (3 # 8)) in
  (lit 0 <=? w11) = true ->
  weights_too_large w11 w12 w22 = false ->
  box_outside image bbox = false ->
  (getMinX bbox <= getMaxX bbox)%Z ->
  (getMinY bbox <= getMaxY bbox)%Z ->
  (cell_expon xl xh yl yh w11 w12 w22 <=? lit 9) = true ->
  (yl <=? yh) = true -> (xl <=? xh) = true ->
  fl (xl + lit (1 # 4)) = xl ->
  calcmom fuel fluxOnly image xcen ycen bbox bkgd true w11 w12 w22 outs want_s4
  = SubgridOutOfFuel.
Proof.
  intros y yl yh x xl xh Hw Hl Hb HX HY He Hy Hx Hs.
  unfold calcmom. rewrite Hw, Hl, Hb. simpl.
  unfold accumulate. rewrite (zrange_cons HY). simpl.
  rewrite (zrange_cons HX). simpl. unfold pixel_step.
  rewrite (@interp_pixel_stuck fuel fluxOnly image xcen ycen bkgd w11 w12 w22
             (getMinY bbox) (getMinX bbox) zero_sums He Hy Hx Hs).
  reflexivity.
Qed.

End Absorbed.

(** The theorem on binary32 counters.  A one-pixel image with the
    centroid at x = 1e8 and the weights (0, 0, 0) of the unweighted
    rerun: x - 0.375 and X + 0.25 both round to -1e8, where two
    neighbouring floats are 8 apart. *)
Lemma calcmom_absorbed_counter_witness :
  calcmom (A := Single.arith) 1000 false
    (MkImage 1 1 (fun _ _ => Single.q 1) (fun _ _ => nan))
    (Single.q 100000000) (Single.q 0) (MkBox 0 0 0 0) (Single.q 0)
    true (Single.q 0) (Single.q 0) (Single.q 0)
    (MkSums nan nan nan nan nan nan nan) false
  = SubgridOutOfFuel.
Proof.
  apply (@calcmom_absorbed_counter Single.arith 1000 false
           (MkImage 1 1 (fun _ _ => Single.q 1) (fun _ _ => nan))
           (Single.q 100000000) (Single.q 0) (MkBox 0 0 0 0) (Single.q 0)
           (Single.q 0) (Single.q 0) (Single.q 0)
           (MkSums nan nan nan nan nan nan nan) false);
    solve [vm_compute; reflexivity | simpl; lia].
Defined.
